(** * Bayesian ranking of coins by Thompson sampling

    A shallow embedding of the [Coin] class of [01-BayesianRanking.ipynb]
    and the properties of its posterior update, of the selection of the
    coin to toss and of the trial loop of [Coin.simulate].

    Python objects live in a heap and are named by their address, so that
    the alias [maxcoin = coin] and the in-place update through it are the
    ones of the notebook.  The global numpy generator, the keyboard and the
    notebook's output area are fields of the world that every method
    threads; an exception stops the computation and keeps the world as it
    was when it was raised. *)

From Stdlib Require Import ZArith QArith String List Lia.
From stdpp Require Import base list.
Import ListNotations.

Local Open Scope nat_scope.

(** ** The random source: [numpy.random] *)

(** The two draws the notebook asks of numpy's global generator, as
    functions of the generator's state.  Floats are compared exactly by
    Python, so a drawn float is modelled by the rational it denotes. *)
Class RandomSource : Type := {
  RNG : Type;
  (** [np.random.rand()] *)
  np_random_rand : RNG -> Q * RNG;
  (** [np.random.beta(a, b)], for [a > 0] and [b > 0] *)
  np_random_beta : Z -> Z -> RNG -> Q * RNG
}.

(** A Beta variate is a probability. *)
Class RandomSourceLaws (RS : RandomSource) : Prop := {
  beta_range : forall (a b : Z) (g : RNG),
    (0 < a)%Z -> (0 < b)%Z ->
    (0 <= fst (np_random_beta a b g))%Q /\ (fst (np_random_beta a b g) <= 1)%Q
}.

(** ** Values, exceptions and output *)

(** The attribute [p] holds the list of true probabilities in the object
    that drives the experiment and a single probability in each coin. *)
Inductive pval : Type :=
| PList (l : list Q)
| PNum (q : Q).

Inductive exn : Type :=
| TypeError
| ValueError
| UnboundLocalError
| Dangling.  (* an address outside the heap; no Python program reaches it *)

Inductive Outcome (A : Type) : Type :=
| Ok (a : A)
| Raise (e : exn).
Arguments Ok {A} a.
Arguments Raise {A} e.

(** What reaches the notebook's output area. *)
Inductive Event : Type :=
| PrintSamples (samples : list Q)
| Plot (curves : list (pval * Z * Z)) (n : Z)
| Prompt (msg : string)
| ClearOutput
| PrintLine (s : string).

(** Objects are named by their place in the heap. *)
Abbreviation addr := nat (only parsing).

(** [x > y] and [x < y] on floats *)
Definition Qgtb (x y : Q) : bool := negb (Qle_bool x y).
Definition Qltb (x y : Q) : bool := Qgtb y x.

(** [i in [5, 10, 20, 50, 100, 200, 500, 1000, 2000, 5000, 9999]] *)
Definition plot_trials : list Z :=
  [5; 10; 20; 50; 100; 200; 500; 1000; 2000; 5000; 9999]%Z.

Definition is_plot_trial (i : Z) : bool := existsb (Z.eqb i) plot_trials.

Module Coin.

(** The attributes of one [Coin] object. *)
Record t : Type := mk { p : pval; alpha : Z; beta : Z }.

(** The local variables of [simulate] that outlive one iteration of its
    loop.  [maxcoin] is assigned inside the inner loop only, and is not
    reset between trials.  [trace] is a ghost record of the trials done:
    the coin tossed and the outcome of the toss. *)
Record Locals : Type := mkLocals {
  coins : list addr;
  maxcoin : option addr;
  trace : list (addr * bool)
}.

Section WithRandomSource.
Context {RS : RandomSource}.

Record World : Type := mkWorld {
  heap : list t;
  rng : RNG;
  stdin : nat -> string;   (* the k-th line typed at the keyboard *)
  cursor : nat;            (* how many lines were read *)
  stdout : list Event
}.

(** *** The monad of Python computations *)

Definition M (A : Type) : Type := World -> Outcome A * World.

Definition ret {A} (a : A) : M A := fun w => (Ok a, w).

Definition raise {A} (e : exn) : M A := fun w => (Raise e, w).

Definition bind {A B} (m : M A) (k : A -> M B) : M B :=
  fun w =>
    match m w with
    | (Ok a, w') => k a w'
    | (Raise e, w') => (Raise e, w')
    end.

Notation "'let*' x ':=' m 'in' k" := (bind m (fun x => k))
  (at level 10, x pattern, m at level 100, k at level 200).

Definition alloc (c : t) : M addr :=
  fun w => (Ok (length (heap w)),
            mkWorld (heap w ++ [c]) (rng w) (stdin w) (cursor w) (stdout w)).

Definition deref (a : addr) : M t :=
  fun w =>
    match heap w !! a with
    | Some c => (Ok c, w)
    | None => (Raise Dangling, w)
    end.

Definition assign (a : addr) (c : t) : M unit :=
  fun w => (Ok tt,
            mkWorld (<[a:=c]> (heap w)) (rng w) (stdin w) (cursor w) (stdout w)).

Definition emit (e : Event) : M unit :=
  fun w => (Ok tt,
            mkWorld (heap w) (rng w) (stdin w) (cursor w) (stdout w ++ [e])).

(** [input(msg)] *)
Definition input (msg : string) : M string :=
  fun w => (Ok (stdin w (cursor w)),
            mkWorld (heap w) (rng w) (stdin w) (S (cursor w))
                    (stdout w ++ [Prompt msg])).

Definition rand : M Q :=
  fun w => let '(x, g) := np_random_rand (rng w) in
           (Ok x, mkWorld (heap w) g (stdin w) (cursor w) (stdout w)).

(** numpy refuses a shape parameter that is not positive. *)
Definition beta_variate (a b : Z) : M Q :=
  fun w =>
    if ((0 <? a) && (0 <? b))%Z then
      let '(x, g) := np_random_beta a b (rng w) in
      (Ok x, mkWorld (heap w) g (stdin w) (cursor w) (stdout w))
    else (Raise ValueError, w).

(** *** The methods of the class *)

(** [Coin(p)], that is [__init__(self, p=[])] on a fresh object *)
Definition init (arg : option pval) : M addr :=
  alloc (mk (default (PList []) arg) 1 1).

(** [np.random.rand() < self.p] *)
Definition toss (self : addr) : M bool :=
  let* r := rand in
  let* me := deref self in
  match p me with
  | PNum q => ret (Qltb r q)
  | PList _ => raise TypeError
  end.

(** [np.random.beta(self.alpha, self.beta)] *)
Definition sample (self : addr) : M Q :=
  let* me := deref self in
  beta_variate (alpha me) (beta me).

(** [if x: self.alpha += x else: self.beta += 1 - x], on a number [x] *)
Definition update (self : addr) (x : Z) : M unit :=
  let* me := deref self in
  if negb (x =? 0)%Z
  then assign self (mk (p me) (alpha me + x) (beta me))
  else assign self (mk (p me) (alpha me) (beta me + (1 - x))).

(** The loop of [plot] reads the posterior of every coin; the figure
    shown is determined by what it has read and by [n]. *)
Fixpoint plot_curves (cs : list addr) : M (list (pval * Z * Z)) :=
  match cs with
  | [] => ret []
  | c :: rest =>
      let* it := deref c in
      let* more := plot_curves rest in
      ret ((p it, alpha it, beta it) :: more)
  end.

Definition plot (self : addr) (cs : list addr) (n : Z) : M unit :=
  let* curves := plot_curves cs in
  emit (Plot curves n).

(** [[Coin(true_p) for true_p in self.p]] *)
Fixpoint new_coins (l : list Q) : M (list addr) :=
  match l with
  | [] => ret []
  | true_p :: rest =>
      let* c := init (Some (PNum true_p)) in
      let* more := new_coins rest in
      ret (c :: more)
  end.

(** The inner loop [for coin in coins], from the coin [cs] starts at. *)
Fixpoint sample_all (cs : list addr) (maxsample : Q) (samples : list Q)
    (mc : option addr) : M (Q * list Q * option addr) :=
  match cs with
  | [] => ret (maxsample, samples, mc)
  | coin :: rest =>
      let* s := sample coin in
      if Qgtb s maxsample
      then sample_all rest s (samples ++ [s]) (Some coin)
      else sample_all rest maxsample (samples ++ [s]) mc
  end.

(** One iteration of [for i in range(n)]; the boolean tells whether the
    iteration left the loop by [break]. *)
Definition trial (self : addr) (i : Z) (loc : Locals) : M (Locals * bool) :=
  let* (_, samples, mc) := sample_all (coins loc) (-1) [] (maxcoin loc) in
  match mc with
  | None => raise UnboundLocalError
  | Some chosen =>
      let* x := toss chosen in
      let* _ := update chosen (Z.b2z x) in
      let loc' := mkLocals (coins loc) (Some chosen) (trace loc ++ [(chosen, x)]) in
      if is_plot_trial i then
        let* _ := emit (PrintSamples samples) in
        let* _ := plot self (coins loc) i in
        let* c := input "Continue?" in
        if String.eqb c "n" then ret (loc', true)
        else
          let* _ := emit ClearOutput in
          ret (loc', false)
      else ret (loc', false)
  end.

(** [for i in range(n)], with [k] iterations left and [i] the next index *)
Fixpoint for_range (k : nat) (self : addr) (i : Z) (loc : Locals) : M Locals :=
  match k with
  | O => ret loc
  | S k' =>
      let* (loc', stop) := trial self i loc in
      if (stop : bool) then ret loc' else for_range k' self (i + 1) loc'
  end.

(** [simulate] up to the end of its loop, with the locals it ends with *)
Definition simulate_loop (self : addr) (n : Z) : M Locals :=
  let* me := deref self in
  match p me with
  | PNum _ => raise TypeError
  | PList l =>
      let* cs := new_coins l in
      for_range (Z.to_nat n) self 0 (mkLocals cs None [])
  end.

Definition simulate (self : addr) (n : Z) : M unit :=
  let* _ := simulate_loop self n in
  emit (PrintLine "Simulation completed!").

End WithRandomSource.

Arguments World RS : clear implicits.

End Coin.

(** ** A scripted random source

    A generator that replays a list of values, cut to [0, 1], and answers
    one half once the list is used up: the stub a test of the selection
    rule needs to make two samples equal. *)

Definition clamp01 (q : Q) : Q :=
  if Qle_bool q 0 then 0%Q else if Qle_bool 1 q then 1%Q else q.

Definition scripted_draw (g : list Q) : Q * list Q :=
  match g with
  | [] => ((1 # 2)%Q, [])
  | x :: g' => (clamp01 x, g')
  end.

Definition Scripted : RandomSource :=
  {| RNG := list Q;
     np_random_rand := scripted_draw;
     np_random_beta := fun _ _ => scripted_draw |}.

(** The experiment of the notebook with its three coins created, about
    to draw the samples 1/3, 2/3, 2/3. *)
Definition tied_world : Coin.World Scripted :=
  Coin.mkWorld (Coin.mk (PList [1 # 5; 1 # 2; 3 # 4]%Q) 1 1
                :: map (fun q => Coin.mk (PNum q) 1 1) [1 # 5; 1 # 2; 3 # 4]%Q)
    ([1 # 3; 2 # 3; 2 # 3]%Q : @RNG Scripted) (fun _ => "y"%string) 0 [].

(** The experiment [Coin(p=l)] alone in the heap, before [simulate] is
    called, with a used-up script and a user who will type [keys]. *)
Definition notebook (l : list Q) (keys : nat -> string) : Coin.World Scripted :=
  Coin.mkWorld [Coin.mk (PList l) 1 1] ([] : @RNG Scripted) keys 0 [].

(** ** What the properties speak of *)

(** The coin [Coin(true_p)] as its constructor leaves it. *)
Definition fresh_coin (true_p : Q) : Coin.t := Coin.mk (PNum true_p) 1 1.

(** An arm of the pool: a coin with a single true probability whose
    posterior parameters are at least one. *)
Definition is_arm (c : Coin.t) : Prop :=
  (exists q, Coin.p c = PNum q) /\ (1 <= Coin.alpha c)%Z /\ (1 <= Coin.beta c)%Z.

Definition arm_at (h : list Coin.t) (a : addr) : Prop :=
  exists c, h !! a = Some c /\ is_arm c.

(** The posterior update as the specification words it: a success adds
    one to [alpha], a failure adds one to [beta]. *)
Definition observe (c : Coin.t) (success : bool) : Coin.t :=
  if success then Coin.mk (Coin.p c) (Coin.alpha c + 1) (Coin.beta c)
  else Coin.mk (Coin.p c) (Coin.alpha c) (Coin.beta c + 1).

(** The posterior parameters of the coin at an address. *)
Definition posterior_at (h : list Coin.t) (a : addr) : Z * Z :=
  from_option (fun c => (Coin.alpha c, Coin.beta c)) (0, 0)%Z (h !! a).

(** One draw per pair of parameters, in order, each from the state the
    previous draw left: what "one sample per arm" asks of the inner loop. *)
Fixpoint one_sample_per_arm {RS : RandomSource} (ab : list (Z * Z)) (g : RNG)
    : list Q * RNG :=
  match ab with
  | [] => ([], g)
  | (a, b) :: rest =>
      let '(x, g1) := np_random_beta a b g in
      let '(xs, g2) := one_sample_per_arm rest g1 in
      (x :: xs, g2)
  end.

(** How often the trace records outcome [x] for the coin at [a], and how
    often it records [a] at all. *)
Fixpoint tally (a : addr) (x : bool) (tr : list (addr * bool)) : Z :=
  match tr with
  | [] => 0
  | (a', x') :: rest =>
      (if (a =? a')%nat && Bool.eqb x x' then 1 else 0) + tally a x rest
  end%Z.

Fixpoint selected (a : addr) (tr : list (addr * bool)) : Z :=
  match tr with
  | [] => 0
  | (a', _) :: rest => (if (a =? a')%nat then 1 else 0) + selected a rest
  end%Z.

(** The number of trials of the trace that tossed a coin of the pool,
    counted coin by coin. *)
Fixpoint selections (cs : list addr) (tr : list (addr * bool)) : Z :=
  match cs with
  | [] => 0
  | a :: rest => selected a tr + selections rest tr
  end%Z.

(** The sum over the pool of [(alpha - 1) + (beta - 1)]. *)
Fixpoint observations (h : list Coin.t) (cs : list addr) : Z :=
  match cs with
  | [] => 0
  | a :: rest =>
      (let '(al, be) := posterior_at h a in (al - 1) + (be - 1))
      + observations h rest
  end%Z.

(** The coins of the pool, in the order of the pool. *)
Definition arms (h : list Coin.t) (cs : list addr) : list Coin.t :=
  omap (fun a => h !! a) cs.

(** The invariant of the trial loop. *)
Record Inv (h : list Coin.t) (loc : Coin.Locals) : Prop := mkInv {
  inv_arms : Forall (arm_at h) (Coin.coins loc);
  inv_nodup : NoDup (Coin.coins loc);
  inv_trace : forall a x, (a, x) ∈ Coin.trace loc -> a ∈ Coin.coins loc;
  inv_maxcoin : forall a, Coin.maxcoin loc = Some a -> a ∈ Coin.coins loc;
  inv_tally : forall a, a ∈ Coin.coins loc ->
      posterior_at h a
      = (1 + tally a true (Coin.trace loc), 1 + tally a false (Coin.trace loc))%Z
}.

(** What a call leaves alone. *)
Definition keeps_heap {RS : RandomSource} {A} (m : Coin.M A) : Prop :=
  forall w r w', m w = (r, w') -> Coin.heap w' = Coin.heap w.

Definition keeps_console {RS : RandomSource} {A} (m : Coin.M A) : Prop :=
  forall w r w', m w = (r, w') ->
    Coin.stdin w' = Coin.stdin w /\ Coin.cursor w' = Coin.cursor w
    /\ Coin.stdout w' = Coin.stdout w.

(** The comparisons of the inner loop alone, on samples already drawn. *)
Fixpoint pick (cs : list addr) (xs : list Q) (m : Q) (mc : option addr)
    : Q * option addr :=
  match cs, xs with
  | c :: cs', x :: xs' =>
      if Qgtb x m then pick cs' xs' x (Some c) else pick cs' xs' m mc
  | _, _ => (m, mc)
  end.

(** Two worlds that hold the same objects, the same generator state and
    the same output, and in which as many lines were read. *)
Definition same_state {RS : RandomSource} (w1 w2 : Coin.World RS) : Prop :=
  Coin.heap w1 = Coin.heap w2 /\ Coin.rng w1 = Coin.rng w2
  /\ Coin.cursor w1 = Coin.cursor w2 /\ Coin.stdout w1 = Coin.stdout w2.

(** A computation that reads the keyboard forwards only, and that two
    such worlds cannot tell apart when the lines it reads in the first are
    the same in the second. *)
Definition replayable {RS : RandomSource} {A} (m : Coin.M A) : Prop :=
  (forall w, Coin.stdin (snd (m w)) = Coin.stdin w
             /\ Coin.cursor w <= Coin.cursor (snd (m w)))
  /\ (forall w1 w2, same_state w1 w2 ->
        (forall k, Coin.cursor w1 <= k < Coin.cursor (snd (m w1)) ->
                   Coin.stdin w1 k = Coin.stdin w2 k) ->
        fst (m w1) = fst (m w2) /\ same_state (snd (m w1)) (snd (m w2))).

(** ** Ranking *)

(** Modelled from the spec: the notebook has no function that ranks the
    coins (it only plots their posteriors); [posterior_mean] is
    [alpha / (alpha + beta)] and [rank] lists the arms by descending
    posterior mean, arms of equal mean by ascending id. *)
Definition posterior_mean (c : Coin.t) : Q :=
  (inject_Z (Coin.alpha c) / inject_Z (Coin.alpha c + Coin.beta c))%Q.

(** Modelled from the spec: the place of an arm in a ranking, before the
    first arm of strictly smaller posterior mean, hence after the arms of
    equal mean that are already there. *)
Fixpoint rank_insert (x : nat * Coin.t) (l : list (nat * Coin.t))
    : list (nat * Coin.t) :=
  match l with
  | [] => [x]
  | y :: rest =>
      if Qgtb (posterior_mean (snd x)) (posterior_mean (snd y))
      then x :: y :: rest
      else y :: rank_insert x rest
  end.

(** The arms of a pool with their ids, from [i] on. *)
Fixpoint with_ids (i : nat) (pool : list Coin.t) : list (nat * Coin.t) :=
  match pool with
  | [] => []
  | c :: rest => (i, c) :: with_ids (S i) rest
  end.

(** Modelled from the spec: [rank(pool)], the arms by descending posterior
    mean, entered in the order of their ids. *)
Definition rank (pool : list Coin.t) : list (nat * Coin.t) :=
  fold_left (fun acc x => rank_insert x acc) (with_ids 0 pool) [].

(** ** The rest of the notebook's behaviour *)

(** [np.random.rand()] draws from the half-open interval from 0 to 1. *)
Class UniformLaws (RS : RandomSource) : Prop := {
  rand_range : forall g : RNG,
    (0 <= fst (np_random_rand g))%Q /\ (fst (np_random_rand g) < 1)%Q
}.

(** A source that steps through 0, 1/4, 1/2, 3/4, and an experiment that
    draws from it. *)
Definition quarter (n : nat) : Q := (Z.of_nat (n mod 4) # 4)%Q.

Definition Quarters : RandomSource :=
  {| RNG := nat;
     np_random_rand := fun n => (quarter n, S n);
     np_random_beta := fun _ _ n => (quarter n, S n) |}.

Definition quarters_notebook (l : list Q) (keys : nat -> string)
    : Coin.World Quarters :=
  Coin.mkWorld [Coin.mk (PList l) 1 1] (0 : @RNG Quarters) keys 0 [].

(** The same experiment once [simulate] has created its coins. *)
Definition quarters_pool (l : list Q) (keys : nat -> string)
    : Coin.World Quarters :=
  Coin.mkWorld (Coin.mk (PList l) 1 1 :: map fresh_coin l)
    (0 : @RNG Quarters) keys 0 [].

(** An integer that numpy can turn into a double without overflow; the
    bound is well inside the range of a double. *)
Definition fits_double (z : Z) : Prop := (Z.abs z < 2 ^ 1023)%Z.

(** What [plot] reads of the coins it is given. *)
Definition curves (h : list Coin.t) (cs : list addr) : list (pval * Z * Z) :=
  map (fun c => (Coin.p c, Coin.alpha c, Coin.beta c)) (arms h cs).

(** The trials a loop of [k] iterations from index [i] runs and the lines
    it reads, told from the answers alone: the loop stops after the trial
    whose prompt is answered with the letter n. *)
Fixpoint plan (k : nat) (i : Z) (keys : nat -> string) (cur : nat) : nat * nat :=
  match k with
  | O => (0, 0)
  | S k' =>
      if is_plot_trial i then
        if String.eqb (keys cur) "n" then (1, 1)
        else let '(t, r) := plan k' (i + 1) keys (S cur) in (S t, S r)
      else let '(t, r) := plan k' (i + 1) keys cur in (S t, r)
  end.

(** How many of the trials that plot lie from [i] up to, not including,
    [m]. *)
Definition listed_between (i m : Z) : nat :=
  length (List.filter (fun t => (i <=? t) && (t <? m))%Z plot_trials).

(** * Properties *)

(** ** Order on drawn values *)

Lemma Qgtb_true (x y : Q) : Qgtb x y = true <-> (y < x)%Q.
Proof.
  unfold Qgtb. rewrite Bool.negb_true_iff. split.
  - intros E. apply Qnot_le_lt. intros L.
    apply Qle_bool_iff in L. congruence.
  - intros L. destruct (Qle_bool x y) eqn:E; [|reflexivity].
    apply Qle_bool_iff in E. exfalso. exact (Qlt_not_le _ _ L E).
Qed.

Lemma Qgtb_false (x y : Q) : Qgtb x y = false <-> (x <= y)%Q.
Proof.
  unfold Qgtb. rewrite Bool.negb_false_iff. apply Qle_bool_iff.
Qed.

Lemma clamp01_range (q : Q) : (0 <= clamp01 q)%Q /\ (clamp01 q <= 1)%Q.
Proof.
  unfold clamp01.
  destruct (Qle_bool q 0) eqn:E0; [split; discriminate|].
  destruct (Qle_bool 1 q) eqn:E1; [split; discriminate|].
  split.
  - apply Qlt_le_weak, Qgtb_true. unfold Qgtb. now rewrite E0.
  - apply Qlt_le_weak, Qgtb_true. unfold Qgtb. now rewrite E1.
Qed.

Lemma Scripted_laws : RandomSourceLaws Scripted.
Proof.
  constructor. intros a b g _ _. simpl.
  destruct g as [|x g]; simpl; [split; discriminate|apply clamp01_range].
Qed.

(** ** The methods, one by one *)

Section Methods.
Context {RS : RandomSource}.
Implicit Types (w : Coin.World RS) (a self : addr) (c : Coin.t).

Lemma bind_ok {A B} (m : Coin.M A) (k : A -> Coin.M B) w v w' :
  m w = (Ok v, w') -> Coin.bind m k w = k v w'.
Proof. intros E. unfold Coin.bind. now rewrite E. Qed.

Lemma bind_raise {A B} (m : Coin.M A) (k : A -> Coin.M B) w e w' :
  m w = (Raise e, w') -> Coin.bind m k w = (Raise e, w').
Proof. intros E. unfold Coin.bind. now rewrite E. Qed.

Lemma deref_ok w a c :
  Coin.heap w !! a = Some c -> Coin.deref a w = (Ok c, w).
Proof. intros E. unfold Coin.deref. now rewrite E. Qed.

Lemma sample_run w self c :
  Coin.heap w !! self = Some c ->
  (0 < Coin.alpha c)%Z -> (0 < Coin.beta c)%Z ->
  Coin.sample self w
  = (Ok (fst (np_random_beta (Coin.alpha c) (Coin.beta c) (Coin.rng w))),
     Coin.mkWorld (Coin.heap w)
       (snd (np_random_beta (Coin.alpha c) (Coin.beta c) (Coin.rng w)))
       (Coin.stdin w) (Coin.cursor w) (Coin.stdout w)).
Proof.
  intros E Ha Hb. unfold Coin.sample.
  rewrite (bind_ok _ _ _ _ _ (deref_ok _ _ _ E)).
  unfold Coin.beta_variate.
  apply Z.ltb_lt in Ha, Hb. rewrite Ha, Hb. simpl.
  now destruct (np_random_beta _ _ _).
Qed.

Lemma sample_keeps_heap self : keeps_heap (Coin.sample self).
Proof.
  intros w r w'. unfold Coin.sample, Coin.bind, Coin.deref, Coin.beta_variate.
  destruct (Coin.heap w !! self) as [c|]; [|now intros [= _ <-]].
  destruct (_ && _); [|now intros [= _ <-]].
  destruct (np_random_beta _ _ _). now intros [= _ <-].
Qed.

Lemma sample_keeps_console self : keeps_console (Coin.sample self).
Proof.
  intros w r w'. unfold Coin.sample, Coin.bind, Coin.deref, Coin.beta_variate.
  destruct (Coin.heap w !! self) as [c|]; [|now intros [= _ <-]].
  destruct (_ && _); [|now intros [= _ <-]].
  destruct (np_random_beta _ _ _). now intros [= _ <-].
Qed.

Lemma toss_run w self c q :
  Coin.heap w !! self = Some c -> Coin.p c = PNum q ->
  Coin.toss self w
  = (Ok (Qltb (fst (np_random_rand (Coin.rng w))) q),
     Coin.mkWorld (Coin.heap w) (snd (np_random_rand (Coin.rng w)))
       (Coin.stdin w) (Coin.cursor w) (Coin.stdout w)).
Proof.
  intros E Hp. unfold Coin.toss, Coin.bind, Coin.rand, Coin.deref.
  destruct (np_random_rand _). simpl. now rewrite E, Hp.
Qed.

Lemma toss_keeps_heap self : keeps_heap (Coin.toss self).
Proof.
  intros w r w'. unfold Coin.toss, Coin.bind, Coin.rand, Coin.deref.
  destruct (np_random_rand _). simpl.
  destruct (Coin.heap w !! self) as [c|]; [|now intros [= _ <-]].
  destruct (Coin.p c); now intros [= _ <-].
Qed.

Lemma plot_curves_keeps cs w r w' :
  Coin.plot_curves cs w = (r, w') -> w' = w.
Proof.
  revert r w'. induction cs as [|a cs IH]; simpl; intros r w'.
  - now intros [= _ <-].
  - unfold Coin.bind at 1. unfold Coin.deref.
    destruct (Coin.heap w !! a) as [c|]; [|now intros [= _ <-]].
    unfold Coin.bind.
    destruct (Coin.plot_curves cs w) as [[v|e] w1] eqn:E;
      specialize (IH _ _ eq_refl); subst w1; now intros [= _ <-].
Qed.

Lemma plot_keeps_heap self cs n : keeps_heap (Coin.plot self cs n).
Proof.
  intros w r w'. unfold Coin.plot, Coin.bind.
  destruct (Coin.plot_curves cs w) as [[v|e] w1] eqn:E;
    apply plot_curves_keeps in E; subst w1; now intros [= _ <-].
Qed.

Lemma update_run w self c (x : bool) :
  Coin.heap w !! self = Some c ->
  Coin.update self (Z.b2z x) w
  = (Ok tt,
     Coin.mkWorld
       (<[self := observe c x]> (Coin.heap w))
       (Coin.rng w) (Coin.stdin w) (Coin.cursor w) (Coin.stdout w)).
Proof.
  intros E. unfold Coin.update.
  rewrite (bind_ok _ _ _ _ _ (deref_ok _ _ _ E)).
  destruct x; reflexivity.
Qed.

End Methods.

(** ** The selection of the coin to toss *)

Section Selection.
Context {RS : RandomSource}.
Implicit Types (w : Coin.World RS) (a : addr) (cs : list addr) (xs : list Q).

Lemma posterior_at_arm (h : list Coin.t) a c :
  h !! a = Some c -> posterior_at h a = (Coin.alpha c, Coin.beta c).
Proof. intros E. unfold posterior_at. now rewrite E. Qed.

Lemma one_sample_per_arm_length (ab : list (Z * Z)) (g : RNG) :
  length (fst (one_sample_per_arm ab g)) = length ab.
Proof.
  revert g. induction ab as [|[a b] ab IH]; intros g; simpl; [reflexivity|].
  destruct (np_random_beta a b g) as [x g1]. specialize (IH g1).
  destruct (one_sample_per_arm ab g1) as [xs g2]. simpl in *. now rewrite IH.
Qed.

(** The inner loop draws once per coin, in the order of the pool, and
    compares as [pick] does; it touches the generator only. *)
Lemma sample_all_run cs : forall w (m : Q) (ss : list Q) (mc : option addr),
  Forall (arm_at (Coin.heap w)) cs ->
  Coin.sample_all cs m ss mc w
  = (Ok (fst (pick cs (fst (one_sample_per_arm
                              (map (posterior_at (Coin.heap w)) cs) (Coin.rng w))) m mc),
         ss ++ fst (one_sample_per_arm
                      (map (posterior_at (Coin.heap w)) cs) (Coin.rng w)),
         snd (pick cs (fst (one_sample_per_arm
                              (map (posterior_at (Coin.heap w)) cs) (Coin.rng w))) m mc)),
     Coin.mkWorld (Coin.heap w)
       (snd (one_sample_per_arm (map (posterior_at (Coin.heap w)) cs) (Coin.rng w)))
       (Coin.stdin w) (Coin.cursor w) (Coin.stdout w)).
Proof.
  induction cs as [|a cs IH]; intros w m ss mc Harms.
  - destruct w. simpl. unfold Coin.ret. now rewrite app_nil_r.
  - apply Forall_cons in Harms as [(c & Ec & _ & Ha & Hb) Harms].
    cbn [Coin.sample_all].
    rewrite (bind_ok _ _ _ _ _ (sample_run w a c Ec ltac:(lia) ltac:(lia))).
    cbn [map one_sample_per_arm]. rewrite (posterior_at_arm _ _ _ Ec).
    destruct (np_random_beta (Coin.alpha c) (Coin.beta c) (Coin.rng w))
      as [x g1] eqn:Ed.
    cbn [fst snd].
    set (w1 := Coin.mkWorld (Coin.heap w) g1 (Coin.stdin w) (Coin.cursor w)
                 (Coin.stdout w)).
    assert (Harms1 : Forall (arm_at (Coin.heap w1)) cs) by exact Harms.
    destruct (Qgtb x m) eqn:Ex; rewrite (IH w1 _ _ _ Harms1); subst w1;
      cbn [Coin.heap Coin.rng Coin.stdin Coin.cursor Coin.stdout];
      destruct (one_sample_per_arm (map (posterior_at (Coin.heap w)) cs) g1)
        as [xs g2];
      cbn [fst snd pick]; rewrite Ex, <- app_assoc; reflexivity.
Qed.

(** What the comparisons keep: the running maximum bounds every sample
    seen, and the coin kept is the first to have reached it. *)
Lemma pick_spec cs : forall xs (m : Q) (mc : option addr),
  length cs = length xs ->
  (m <= fst (pick cs xs m mc))%Q
  /\ (forall k x, xs !! k = Some x -> (x <= fst (pick cs xs m mc))%Q)
  /\ ((pick cs xs m mc = (m, mc) /\ forall k x, xs !! k = Some x -> (x <= m)%Q)
      \/ exists j a,
           snd (pick cs xs m mc) = Some a /\ cs !! j = Some a
           /\ xs !! j = Some (fst (pick cs xs m mc))
           /\ (m < fst (pick cs xs m mc))%Q
           /\ forall k x, k < j -> xs !! k = Some x ->
                (x < fst (pick cs xs m mc))%Q).
Proof.
  induction cs as [|c cs IH]; intros [|x xs] m mc Hlen; try discriminate.
  - simpl. split; [apply Qle_refl|]. split; [intros k x; now rewrite lookup_nil|].
    left. split; [reflexivity|]. intros k x; now rewrite lookup_nil.
  - injection Hlen as Hlen. cbn [pick].
    destruct (Qgtb x m) eqn:Ex.
    + apply Qgtb_true in Ex.
      destruct (IH xs x (Some c) Hlen) as (Hm & Hall & Hcase).
      split; [apply Qlt_le_weak; eapply Qlt_le_trans; eassumption|].
      split.
      { intros [|k] y; simpl; [intros [= <-]; exact Hm|apply Hall]. }
      right. destruct Hcase as [[E Hle]|(j & a & Ea & Ec & Ej & Hlt & Hfirst)].
      * exists 0, c. rewrite E. cbn [fst snd]. repeat split; try reflexivity.
        { exact Ex. }
        intros k y Hk. lia.
      * exists (S j), a. repeat split; try assumption.
        { eapply Qlt_trans; eassumption. }
        intros [|k] y Hk; simpl.
        { intros [= <-]. exact Hlt. }
        apply Hfirst. lia.
    + apply Qgtb_false in Ex.
      destruct (IH xs m mc Hlen) as (Hm & Hall & Hcase).
      split; [exact Hm|]. split.
      { intros [|k] y; simpl; [intros [= <-]; eapply Qle_trans; eassumption|apply Hall]. }
      destruct Hcase as [[E Hle]|(j & a & Ea & Ec & Ej & Hlt & Hfirst)].
      * left. split; [exact E|].
        intros [|k] y; simpl; [intros [= <-]; exact Ex|apply Hle].
      * right. exists (S j), a. repeat split; try assumption.
        intros [|k] y Hk; simpl.
        { intros [= <-]. eapply Qle_lt_trans; eassumption. }
        apply Hfirst. lia.
Qed.

End Selection.

Section SelectionLaws.
Context {RS : RandomSource} {RL : RandomSourceLaws RS}.
Implicit Types (w : Coin.World RS) (a : addr) (cs : list addr) (xs : list Q).

Lemma one_sample_per_arm_range (ab : list (Z * Z)) : forall (g : RNG),
  Forall (fun '(a, b) => (0 < a)%Z /\ (0 < b)%Z) ab ->
  forall k x, fst (one_sample_per_arm ab g) !! k = Some x ->
    (0 <= x)%Q /\ (x <= 1)%Q.
Proof.
  induction ab as [|[a b] ab IH]; intros g Hpos k x; simpl.
  - now rewrite lookup_nil.
  - apply Forall_cons in Hpos as [[Ha Hb] Hpos].
    pose proof (beta_range a b g Ha Hb) as Hr.
    destruct (np_random_beta a b g) as [y g1].
    specialize (IH g1 Hpos).
    destruct (one_sample_per_arm ab g1) as [ys g2]. simpl in *.
    destruct k as [|k]; simpl; [intros [= <-]; exact Hr|apply IH].
Qed.

Lemma arms_positive (h : list Coin.t) cs :
  Forall (arm_at h) cs ->
  Forall (fun '(a, b) => (0 < a)%Z /\ (0 < b)%Z) (map (posterior_at h) cs).
Proof.
  intros H. apply Forall_map. eapply Forall_impl; [exact H|].
  intros a (c & Ec & _ & Ha & Hb). simpl.
  rewrite (posterior_at_arm _ _ _ Ec). lia.
Qed.

(** From the sentinel [-1], a pool that is not empty always yields a
    winner, whatever [maxcoin] held before. *)
Lemma pick_winner cs xs (mc : option addr) :
  cs <> [] -> length cs = length xs ->
  (forall k x, xs !! k = Some x -> (0 <= x)%Q) ->
  exists j a,
    snd (pick cs xs (-1) mc) = Some a /\ cs !! j = Some a
    /\ xs !! j = Some (fst (pick cs xs (-1) mc))
    /\ (forall k x, xs !! k = Some x -> (x <= fst (pick cs xs (-1) mc))%Q)
    /\ (forall k x, k < j -> xs !! k = Some x -> (x < fst (pick cs xs (-1) mc))%Q).
Proof.
  intros Hne Hlen Hpos.
  destruct (pick_spec cs xs (-1) mc Hlen) as (_ & Hall & Hcase).
  destruct Hcase as [[_ Hle]|(j & a & Ea & Ec & Ej & _ & Hfirst)].
  - exfalso. destruct cs as [|c cs]; [congruence|].
    destruct xs as [|x xs]; [discriminate|].
    specialize (Hle 0 x eq_refl). specialize (Hpos 0 x eq_refl).
    exact (Qle_trans _ _ _ Hpos Hle eq_refl).
  - exists j, a. repeat split; assumption.
Qed.

End SelectionLaws.

(** ** Counting in the trace *)

Lemma tally_app a x tr a' x' :
  tally a x (tr ++ [(a', x')])
  = (tally a x tr + if (a =? a')%nat && Bool.eqb x x' then 1 else 0)%Z.
Proof.
  induction tr as [|[b y] tr IH]; simpl; [lia|]. rewrite IH. lia.
Qed.

Lemma selected_app a tr a' x' :
  selected a (tr ++ [(a', x')])
  = (selected a tr + if (a =? a')%nat then 1 else 0)%Z.
Proof.
  induction tr as [|[b y] tr IH]; simpl; [lia|]. rewrite IH. lia.
Qed.

Lemma tally_selected a tr :
  (tally a true tr + tally a false tr = selected a tr)%Z.
Proof.
  induction tr as [|[b y] tr IH]; simpl; [reflexivity|].
  destruct (a =? b)%nat, y; simpl; lia.
Qed.

Lemma tally_nonneg a x tr : (0 <= tally a x tr)%Z.
Proof.
  induction tr as [|[b y] tr IH]; simpl; [lia|].
  destruct (_ && _); lia.
Qed.

Lemma selected_absent a tr :
  (forall x, (a, x) ∉ tr) -> selected a tr = 0%Z.
Proof.
  induction tr as [|[b y] tr IH]; intros Hno; simpl; [reflexivity|].
  destruct (Nat.eqb_spec a b) as [->|Hne].
  - exfalso. apply (Hno y). left.
  - rewrite IH; [reflexivity|]. intros x Hin. apply (Hno x). now right.
Qed.

Lemma selections_nil cs : selections cs [] = 0%Z.
Proof. induction cs as [|a cs IH]; simpl; [reflexivity|now rewrite IH]. Qed.

Lemma selections_cons_absent cs b y tr :
  b ∉ cs -> selections cs ((b, y) :: tr) = selections cs tr.
Proof.
  induction cs as [|a cs IH]; intros Hb; [reflexivity|].
  cbn [selections selected].
  rewrite IH by (intros H; apply Hb; now right).
  destruct (Nat.eqb_spec a b) as [->|_]; [exfalso; apply Hb; left|lia].
Qed.

Lemma selections_cons_present cs b y tr :
  NoDup cs -> b ∈ cs ->
  selections cs ((b, y) :: tr) = (1 + selections cs tr)%Z.
Proof.
  induction 1 as [|a cs Hnotin Hnd IH]; intros Hb; [now apply elem_of_nil in Hb|].
  cbn [selections selected].
  destruct (Nat.eqb_spec a b) as [->|Hne].
  - rewrite selections_cons_absent by exact Hnotin. lia.
  - apply elem_of_cons in Hb as [->|Hb]; [congruence|]. rewrite (IH Hb). lia.
Qed.

(** Each trial of the trace is counted for exactly one coin of a pool
    that holds every coin tossed, once. *)
Lemma selected_total cs tr :
  NoDup cs -> (forall a x, (a, x) ∈ tr -> a ∈ cs) ->
  selections cs tr = Z.of_nat (length tr).
Proof.
  intros Hnd. induction tr as [|[b y] tr IH]; intros Hin.
  - apply selections_nil.
  - rewrite selections_cons_present; [|exact Hnd|apply (Hin b y); left].
    rewrite IH by (intros a x H; apply (Hin a x); now right).
    cbn [length]. lia.
Qed.

(** ** The invariant of the trial loop *)

Lemma arm_at_insert (h : list Coin.t) a a' c' :
  arm_at h a' -> is_arm c' -> arm_at (<[a := c']> h) a'.
Proof.
  intros (c0 & E0 & H0) Hc'. destruct (decide (a = a')) as [->|Hne].
  - exists c'. split; [|exact Hc'].
    apply list_lookup_insert_eq. eapply lookup_lt_Some; eassumption.
  - exists c0. split; [|exact H0]. now rewrite list_lookup_insert_ne.
Qed.

Lemma Inv_step (h : list Coin.t) (loc : Coin.Locals) a c (x : bool) :
  Inv h loc -> a ∈ Coin.coins loc -> h !! a = Some c ->
  Inv (<[a := observe c x]> h)
      (Coin.mkLocals (Coin.coins loc) (Some a) (Coin.trace loc ++ [(a, x)])).
Proof.
  intros [Harms Hnd Htr Hmc Htal] Ha Ec.
  assert (Hc : is_arm c).
  { rewrite Forall_forall in Harms. destruct (Harms a Ha) as (c0 & E0 & H0).
    congruence. }
  assert (Hlt : a < length h) by (eapply lookup_lt_Some; eassumption).
  constructor; cbn [Coin.coins Coin.maxcoin Coin.trace].
  - eapply Forall_impl; [exact Harms|]. intros a' Ha'.
    apply arm_at_insert; [exact Ha'|].
    destruct Hc as ((q & Hq) & H1 & H2). destruct x; (split; [exists q; exact Hq|simpl; lia]).
  - exact Hnd.
  - intros a' x' Hin. apply elem_of_app in Hin as [Hin|Hin]; [eauto|].
    apply list_elem_of_singleton in Hin. now injection Hin as -> ->.
  - now intros a' [= <-].
  - intros a' Ha'. rewrite !tally_app.
    specialize (Htal a' Ha'). unfold posterior_at in *.
    destruct (Nat.eqb_spec a' a) as [->|Hne].
    + rewrite list_lookup_insert_eq by exact Hlt. rewrite Ec in Htal.
      simpl in Htal. injection Htal as Hal Hbe.
      destruct x; simpl; f_equal; lia.
    + rewrite list_lookup_insert_ne by congruence.
      etransitivity; [exact Htal|]. simpl. f_equal; lia.
Qed.

Lemma Inv_posterior (h : list Coin.t) (loc : Coin.Locals) a :
  Inv h loc -> a ∈ Coin.coins loc ->
  exists c, h !! a = Some c
    /\ Coin.alpha c = (1 + tally a true (Coin.trace loc))%Z
    /\ Coin.beta c = (1 + tally a false (Coin.trace loc))%Z.
Proof.
  intros [Harms _ _ _ Htal] Ha.
  rewrite Forall_forall in Harms. destruct (Harms a Ha) as (c & Ec & _).
  exists c. split; [exact Ec|].
  specialize (Htal a Ha). rewrite (posterior_at_arm _ _ _ Ec) in Htal.
  now injection Htal.
Qed.

Lemma Inv_observations (h : list Coin.t) (loc : Coin.Locals) :
  Inv h loc ->
  observations h (Coin.coins loc) = Z.of_nat (length (Coin.trace loc)).
Proof.
  intros HI.
  rewrite <- (selected_total (Coin.coins loc) (Coin.trace loc)
                (inv_nodup _ _ HI) (inv_trace _ _ HI)).
  pose proof (inv_tally _ _ HI) as Htal.
  induction (Coin.coins loc) as [|a cs IH]; [reflexivity|].
  cbn [observations selections].
  rewrite IH by (intros b Hb; apply Htal; now right).
  rewrite (Htal a) by left.
  pose proof (tally_selected a (Coin.trace loc)). lia.
Qed.

(** ** One trial *)

Section Trials.
Context {RS : RandomSource} {RL : RandomSourceLaws RS}.
Implicit Types (w : Coin.World RS) (a self : addr) (loc : Coin.Locals).

Lemma plot_curves_run (cs : list addr) w :
  Forall (arm_at (Coin.heap w)) cs ->
  exists v, Coin.plot_curves cs w = (Ok v, w).
Proof.
  induction 1 as [|a cs (c & Ec & _) _ [v IH]]; simpl.
  - now exists [].
  - rewrite (bind_ok _ _ _ _ _ (deref_ok _ _ _ Ec)).
    rewrite (bind_ok _ _ _ _ _ IH). eexists. reflexivity.
Qed.

(** With a pool that is not empty a trial runs to its end: it tosses the
    coin its inner loop has picked, updates that coin and no other, and
    leaves the loop only on the answer [n] at a trial that plots. *)
Lemma trial_run self (i : Z) loc w :
  Forall (arm_at (Coin.heap w)) (Coin.coins loc) -> Coin.coins loc <> [] ->
  exists a c x w',
    Coin.trial self i loc w
    = (Ok (Coin.mkLocals (Coin.coins loc) (Some a) (Coin.trace loc ++ [(a, x)]),
           is_plot_trial i && String.eqb (Coin.stdin w (Coin.cursor w)) "n"), w')
    /\ snd (pick (Coin.coins loc)
              (fst (one_sample_per_arm
                      (map (posterior_at (Coin.heap w)) (Coin.coins loc))
                      (Coin.rng w))) (-1) (Coin.maxcoin loc)) = Some a
    /\ a ∈ Coin.coins loc /\ Coin.heap w !! a = Some c
    /\ Coin.heap w' = <[a := observe c x]> (Coin.heap w)
    /\ Coin.stdin w' = Coin.stdin w
    /\ Coin.cursor w' = (if is_plot_trial i then S (Coin.cursor w) else Coin.cursor w).
Proof.
  intros Harms Hne.
  unfold Coin.trial.
  rewrite (bind_ok _ _ _ _ _ (sample_all_run _ w _ _ _ Harms)).
  set (d := one_sample_per_arm (map (posterior_at (Coin.heap w)) (Coin.coins loc))
              (Coin.rng w)).
  destruct (pick_winner (Coin.coins loc) (fst d) (Coin.maxcoin loc) Hne)
    as (j & a & Ea & Ej & _).
  { subst d. now rewrite one_sample_per_arm_length, length_map. }
  { intros k x Hk. eapply one_sample_per_arm_range; [|exact Hk].
    apply arms_positive, Harms. }
  rewrite Ea.
  assert (Ha : a ∈ Coin.coins loc) by (eapply list_elem_of_lookup_2; exact Ej).
  destruct (proj1 (Forall_forall _ _) Harms a Ha) as (c & Ec & (q & Hq) & H1 & H2).
  set (w1 := Coin.mkWorld _ _ _ _ _).
  rewrite (bind_ok _ _ _ _ _ (toss_run w1 a c q Ec Hq)).
  set (x := Qltb _ _). set (w2 := Coin.mkWorld _ _ _ _ _).
  rewrite (bind_ok _ _ _ _ _ (update_run w2 a c x Ec)).
  set (w3 := Coin.mkWorld _ _ _ _ _).
  exists a, c, x.
  destruct (is_plot_trial i).
  - unfold Coin.emit at 1. unfold Coin.bind at 1.
    set (w4 := Coin.mkWorld _ _ _ _ _).
    destruct (plot_curves_run (Coin.coins loc) w4) as [v Ev].
    { subst w4 w3. cbn [Coin.heap].
      eapply Forall_impl; [exact Harms|]. intros a' Ha'.
      apply arm_at_insert; [exact Ha'|].
      destruct x; (split; [exists q; exact Hq|simpl; lia]). }
    unfold Coin.plot.
    rewrite (bind_ok _ _ _ _ _ (bind_ok _ _ _ _ _ Ev)).
    unfold Coin.emit, Coin.input, Coin.bind. cbn [Coin.stdin Coin.cursor].
    subst w4 w3 w2 w1. cbn [Coin.stdin Coin.cursor Coin.heap Coin.rng Coin.stdout].
    destruct (String.eqb _ _); eexists; (split; [reflexivity|]);
      cbn [Coin.stdin Coin.cursor Coin.heap]; auto 10.
  - exists w3. split; [reflexivity|]. subst w3 w2 w1.
    cbn [Coin.stdin Coin.cursor Coin.heap]. auto 10.
Qed.

End Trials.

(** ** The trial loop *)

Section Loop.
Context {RS : RandomSource} {RL : RandomSourceLaws RS}.
Implicit Types (w : Coin.World RS) (a self : addr) (loc : Coin.Locals).

(** With a pool that is not empty the loop runs to its end, one trial
    per iteration, and stops early only on the answer [n]. *)
Lemma for_range_run (k : nat) : forall self (i : Z) loc w,
  Inv (Coin.heap w) loc -> Coin.coins loc <> [] ->
  exists loc' w' tr,
    Coin.for_range k self i loc w = (Ok loc', w')
    /\ Inv (Coin.heap w') loc'
    /\ Coin.coins loc' = Coin.coins loc
    /\ Coin.trace loc' = Coin.trace loc ++ tr
    /\ length tr <= k
    /\ (length tr = k
        \/ exists j, Coin.cursor w <= j /\ Coin.stdin w j = "n"%string)
    /\ Coin.cursor w <= Coin.cursor w'
    /\ Coin.stdin w' = Coin.stdin w
    /\ length (Coin.heap w') = length (Coin.heap w)
    /\ (forall a, a ∉ Coin.coins loc -> Coin.heap w' !! a = Coin.heap w !! a).
Proof.
  induction k as [|k IH]; intros self i loc w HI Hne.
  - exists loc, w, []. simpl. rewrite app_nil_r. split_and!; auto.
  - destruct (trial_run self i loc w (inv_arms _ _ HI) Hne)
      as (a & c & x & w1 & Et & _ & Ha & Ec & Eh & Ein & Ecur).
    cbn [Coin.for_range]. rewrite (bind_ok _ _ _ _ _ Et).
    set (loc1 := Coin.mkLocals _ _ _).
    assert (HI1 : Inv (Coin.heap w1) loc1).
    { rewrite Eh. now apply Inv_step. }
    assert (Hother : forall b, b ∉ Coin.coins loc ->
              Coin.heap w1 !! b = Coin.heap w !! b).
    { intros b Hb. rewrite Eh. apply list_lookup_insert_ne. congruence. }
    assert (Hlen : length (Coin.heap w1) = length (Coin.heap w)).
    { rewrite Eh. apply length_insert. }
    destruct (is_plot_trial i && String.eqb (Coin.stdin w (Coin.cursor w)) "n")
      eqn:Estop.
    + exists loc1, w1, [(a, x)]. split_and!; auto.
      * simpl. lia.
      * right. exists (Coin.cursor w). split; [lia|].
        apply andb_prop in Estop as [_ Estop]. now apply String.eqb_eq.
      * rewrite Ecur. destruct (is_plot_trial i); lia.
    + destruct (IH self (i + 1)%Z loc1 w1 HI1 Hne)
        as (loc' & w' & tr & Er & HI' & Ecs & Etr & Hle & Hall & Hcur & Ein'
            & Elen' & Hoth').
      assert (Hmono : Coin.cursor w <= Coin.cursor w1).
      { rewrite Ecur. destruct (is_plot_trial i); lia. }
      exists loc', w', ((a, x) :: tr). split_and!; auto.
      * rewrite Etr. subst loc1. cbn [Coin.trace]. now rewrite <- app_assoc.
      * simpl. lia.
      * destruct Hall as [Hall|(j & Hj & Ej)]; [left; simpl; lia|].
        right. exists j. split; [lia|]. now rewrite <- Ein.
      * lia.
      * congruence.
      * congruence.
      * intros b Hb. rewrite Hoth' by exact Hb. now apply Hother.
Qed.

End Loop.

(** ** Creating the pool *)

Section Pool.
Context {RS : RandomSource}.
Implicit Types (w : Coin.World RS) (a self : addr) (loc : Coin.Locals).

Lemma new_coins_run (l : list Q) : forall w,
  Coin.new_coins l w
  = (Ok (seq (length (Coin.heap w)) (length l)),
     Coin.mkWorld (Coin.heap w ++ map fresh_coin l)
       (Coin.rng w) (Coin.stdin w) (Coin.cursor w) (Coin.stdout w)).
Proof.
  induction l as [|q l IH]; intros w.
  - destruct w. simpl. unfold Coin.ret. now rewrite app_nil_r.
  - cbn [Coin.new_coins]. unfold Coin.init, Coin.alloc, Coin.bind at 1.
    rewrite (bind_ok _ _ _ _ _ (IH _)). unfold Coin.ret.
    cbn [Coin.heap Coin.rng Coin.stdin Coin.cursor Coin.stdout length map seq].
    rewrite length_app, Nat.add_1_r, <- app_assoc. reflexivity.
Qed.

Lemma fresh_pool_lookup (h : list Coin.t) (l : list Q) a :
  a ∈ seq (length h) (length l) ->
  exists q, (h ++ map fresh_coin l) !! a = Some (fresh_coin q).
Proof.
  intros Ha. apply elem_of_seq in Ha.
  destruct (lookup_lt_is_Some_2 l (a - length h) ltac:(lia)) as [q Eq].
  exists q. rewrite lookup_app_r by lia.
  now rewrite list_lookup_fmap, Eq.
Qed.

(** The pool just created satisfies the invariant of the loop. *)
Lemma Inv_fresh (h : list Coin.t) (l : list Q) :
  Inv (h ++ map fresh_coin l) (Coin.mkLocals (seq (length h) (length l)) None []).
Proof.
  constructor; cbn [Coin.coins Coin.maxcoin Coin.trace].
  - apply Forall_forall. intros a Ha.
    destruct (fresh_pool_lookup h l a Ha) as [q Eq].
    exists (fresh_coin q). split; [exact Eq|].
    split; [now exists q|simpl; lia].
  - apply NoDup_seq.
  - intros a x Hin. now apply elem_of_nil in Hin.
  - discriminate.
  - intros a Ha. destruct (fresh_pool_lookup h l a Ha) as [q Eq].
    now rewrite (posterior_at_arm _ _ _ Eq).
Qed.

End Pool.

(** ** Runs that cannot be told apart *)

Section Determinism.
Context {RS : RandomSource}.
Implicit Types (w : Coin.World RS) (a self : addr) (loc : Coin.Locals).

Lemma replayable_ret {A} (v : A) : replayable (Coin.ret v).
Proof. split; [intros w; simpl; auto|intros w1 w2 H _; now split]. Qed.

Lemma replayable_raise {A} e : replayable (@Coin.raise RS A e).
Proof. split; [intros w; simpl; auto|intros w1 w2 H _; now split]. Qed.

Lemma replayable_bind {A B} (m : Coin.M A) (k : A -> Coin.M B) :
  replayable m -> (forall v, replayable (k v)) -> replayable (Coin.bind m k).
Proof.
  intros [Hm1 Hm2] Hk. split.
  - intros w. unfold Coin.bind. specialize (Hm1 w).
    destruct (m w) as [[v|e] w']; simpl in Hm1; [|exact Hm1].
    destruct (Hk v) as [Hk1 _]. specialize (Hk1 w').
    destruct Hk1 as [-> ?], Hm1 as [-> ?]. split; [reflexivity|lia].
  - intros w1 w2 S Hread. unfold Coin.bind in *.
    pose proof (Hm1 w1) as [Ein1 Hc1]. pose proof (Hm1 w2) as [Ein2 _].
    specialize (Hm2 w1 w2 S).
    destruct (m w1) as [[v1|e1] w1'], (m w2) as [[v2|e2] w2']; simpl in *.
    + destruct (Hk v1) as [Hk1 Hk2]. pose proof (Hk1 w1') as [_ Hc2].
      destruct Hm2 as [E S']; [intros j Hj; apply Hread; lia|].
      injection E as <-. apply Hk2; [exact S'|].
      intros j Hj. rewrite Ein1, Ein2. apply Hread. lia.
    + destruct (Hk v1) as [Hk1 _]. pose proof (Hk1 w1') as [_ Hc2].
      destruct Hm2 as [E _]; [intros j Hj; apply Hread; lia|discriminate].
    + destruct Hm2 as [E _]; [exact Hread|discriminate].
    + destruct (Hm2 Hread) as [E S']. injection E as <-. now split.
Qed.

(** A computation that does not touch the keyboard. *)
Lemma replayable_quiet {A} (m : Coin.M A) :
  (forall w, Coin.stdin (snd (m w)) = Coin.stdin w
             /\ Coin.cursor (snd (m w)) = Coin.cursor w) ->
  (forall w1 w2, same_state w1 w2 ->
     fst (m w1) = fst (m w2) /\ same_state (snd (m w1)) (snd (m w2))) ->
  replayable m.
Proof.
  intros Hq Hs. split.
  - intros w. destruct (Hq w) as [-> ->]. auto.
  - intros w1 w2 S _. now apply Hs.
Qed.

Lemma replayable_deref a : replayable (Coin.deref a).
Proof.
  apply replayable_quiet.
  - intros w. unfold Coin.deref. now destruct (Coin.heap w !! a).
  - intros w1 w2 S. unfold Coin.deref. pose proof S as (Eh & _).
    rewrite <- Eh. now destruct (Coin.heap w1 !! a).
Qed.

Lemma replayable_assign a c : replayable (Coin.assign a c).
Proof.
  apply replayable_quiet; [now intros w|].
  intros w1 w2 (Eh & Eg & Ec & Eo). unfold Coin.assign, same_state. simpl.
  rewrite Eh. auto.
Qed.

Lemma replayable_alloc c : replayable (Coin.alloc c).
Proof.
  apply replayable_quiet; [now intros w|].
  intros w1 w2 (Eh & Eg & Ec & Eo). unfold Coin.alloc, same_state. simpl.
  rewrite Eh. auto.
Qed.

Lemma replayable_emit e : replayable (Coin.emit e).
Proof.
  apply replayable_quiet; [now intros w|].
  intros w1 w2 (Eh & Eg & Ec & Eo). unfold Coin.emit, same_state. simpl.
  rewrite Eo. auto.
Qed.

Lemma replayable_input msg : replayable (Coin.input msg).
Proof.
  split; [intros w; simpl; auto|].
  intros w1 w2 (Eh & Eg & Ec & Eo) Hread. unfold Coin.input, same_state in *.
  simpl in *. rewrite <- Ec, Eo, (Hread (Coin.cursor w1)) by lia. auto.
Qed.

Lemma replayable_rand : replayable Coin.rand.
Proof.
  apply replayable_quiet.
  - intros w. unfold Coin.rand. now destruct (np_random_rand _).
  - intros w1 w2 (Eh & Eg & Ec & Eo). unfold Coin.rand, same_state.
    rewrite <- Eg. destruct (np_random_rand _). simpl. auto.
Qed.

Lemma replayable_beta_variate (x y : Z) : replayable (Coin.beta_variate x y).
Proof.
  apply replayable_quiet.
  - intros w. unfold Coin.beta_variate.
    destruct (_ && _); [|auto]. now destruct (np_random_beta _ _ _).
  - intros w1 w2 (Eh & Eg & Ec & Eo). unfold Coin.beta_variate, same_state.
    rewrite <- Eg. destruct (_ && _); [|simpl; auto].
    destruct (np_random_beta _ _ _). simpl. auto.
Qed.

Lemma replayable_toss self : replayable (Coin.toss self).
Proof.
  unfold Coin.toss. apply replayable_bind; [apply replayable_rand|]. intros r.
  apply replayable_bind; [apply replayable_deref|]. intros me.
  destruct (Coin.p me); [apply replayable_raise|apply replayable_ret].
Qed.

Lemma replayable_sample self : replayable (Coin.sample self).
Proof.
  unfold Coin.sample. apply replayable_bind; [apply replayable_deref|].
  intros me. apply replayable_beta_variate.
Qed.

Lemma replayable_update self (x : Z) : replayable (Coin.update self x).
Proof.
  unfold Coin.update. apply replayable_bind; [apply replayable_deref|].
  intros me. destruct (negb _); apply replayable_assign.
Qed.

Lemma replayable_plot self (cs : list addr) (n : Z) :
  replayable (Coin.plot self cs n).
Proof.
  unfold Coin.plot. apply replayable_bind; [|intros v; apply replayable_emit].
  induction cs as [|c cs IH]; simpl; [apply replayable_ret|].
  apply replayable_bind; [apply replayable_deref|]. intros it.
  apply replayable_bind; [exact IH|]. intros more. apply replayable_ret.
Qed.

Lemma replayable_new_coins (l : list Q) : replayable (Coin.new_coins l).
Proof.
  induction l as [|q l IH]; simpl; [apply replayable_ret|].
  apply replayable_bind; [apply replayable_alloc|]. intros c.
  apply replayable_bind; [exact IH|]. intros more. apply replayable_ret.
Qed.

Lemma replayable_sample_all (cs : list addr) : forall (m : Q) (ss : list Q) mc,
  replayable (Coin.sample_all cs m ss mc).
Proof.
  induction cs as [|c cs IH]; intros m ss mc; simpl; [apply replayable_ret|].
  apply replayable_bind; [apply replayable_sample|]. intros s.
  destruct (Qgtb s m); apply IH.
Qed.

Lemma replayable_trial self (i : Z) loc : replayable (Coin.trial self i loc).
Proof.
  unfold Coin.trial. apply replayable_bind; [apply replayable_sample_all|].
  intros [[m samples] [chosen|]]; [|apply replayable_raise].
  apply replayable_bind; [apply replayable_toss|]. intros x.
  apply replayable_bind; [apply replayable_update|]. intros _.
  destruct (is_plot_trial i); [|apply replayable_ret].
  apply replayable_bind; [apply replayable_emit|]. intros _.
  apply replayable_bind; [apply replayable_plot|]. intros _.
  apply replayable_bind; [apply replayable_input|]. intros c.
  destruct (String.eqb c "n"); [apply replayable_ret|].
  apply replayable_bind; [apply replayable_emit|]. intros _. apply replayable_ret.
Qed.

Lemma replayable_for_range (k : nat) : forall self (i : Z) loc,
  replayable (Coin.for_range k self i loc).
Proof.
  induction k as [|k IH]; intros self i loc; simpl; [apply replayable_ret|].
  apply replayable_bind; [apply replayable_trial|].
  intros [loc' [|]]; [apply replayable_ret|apply IH].
Qed.

Lemma replayable_simulate_loop self (n : Z) :
  replayable (Coin.simulate_loop self n).
Proof.
  unfold Coin.simulate_loop. apply replayable_bind; [apply replayable_deref|].
  intros me. destruct (Coin.p me); [|apply replayable_raise].
  apply replayable_bind; [apply replayable_new_coins|]. intros cs.
  apply replayable_for_range.
Qed.

Lemma replayable_simulate self (n : Z) : replayable (Coin.simulate self n).
Proof.
  unfold Coin.simulate. apply replayable_bind; [apply replayable_simulate_loop|].
  intros _. apply replayable_emit.
Qed.

Lemma simulate_cursor self (n : Z) w :
  Coin.cursor (snd (Coin.simulate self n w))
  = Coin.cursor (snd (Coin.simulate_loop self n w)).
Proof.
  unfold Coin.simulate, Coin.bind.
  now destruct (Coin.simulate_loop self n w) as [[loc|e] w'].
Qed.

End Determinism.

(** ** Ranking a pool of tied arms *)

Lemma with_ids_fst (pool : list Coin.t) : forall i,
  map fst (with_ids i pool) = seq i (length pool).
Proof.
  induction pool as [|c pool IH]; intros i; simpl; [reflexivity|].
  now rewrite IH.
Qed.

Lemma with_ids_snd (pool : list Coin.t) : forall i,
  map snd (with_ids i pool) = pool.
Proof.
  induction pool as [|c pool IH]; intros i; simpl; [reflexivity|].
  now rewrite IH.
Qed.

Lemma rank_insert_tied (x : nat * Coin.t) (l : list (nat * Coin.t)) :
  Forall (fun y => Qgtb (posterior_mean (snd x)) (posterior_mean (snd y)) = false) l ->
  rank_insert x l = l ++ [x].
Proof.
  induction 1 as [|y l Hy _ IH]; simpl; [reflexivity|].
  now rewrite Hy, IH.
Qed.

Lemma rank_fold_tied (xs : list (nat * Coin.t)) : forall acc,
  (forall x y, x ∈ xs -> y ∈ acc ++ xs ->
     Qgtb (posterior_mean (snd x)) (posterior_mean (snd y)) = false) ->
  fold_left (fun acc x => rank_insert x acc) xs acc = acc ++ xs.
Proof.
  induction xs as [|x xs IH]; intros acc Htied; simpl; [now rewrite app_nil_r|].
  rewrite rank_insert_tied.
  - rewrite IH; [now rewrite <- app_assoc|].
    intros u v Hu Hv. apply Htied; [now right|].
    now rewrite <- app_assoc in Hv.
  - apply Forall_forall. intros y Hy. apply Htied; [left|].
    apply elem_of_app. now left.
Qed.

Example rank_by_descending_mean :
  map fst (rank [Coin.mk (PNum (1 # 5)) 1 4; Coin.mk (PNum (1 # 2)) 3 3;
                 Coin.mk (PNum (3 # 4)) 7 2; Coin.mk (PNum (1 # 2)) 1 1])
  = [2; 1; 3; 0].
Proof. reflexivity. Qed.

(** Arms whose posterior means do not differ are ranked by ascending id. *)
Lemma rank_tied (pool : list Coin.t) :
  (forall c1 c2, c1 ∈ pool -> c2 ∈ pool ->
     Qgtb (posterior_mean c1) (posterior_mean c2) = false) ->
  rank pool = with_ids 0 pool.
Proof.
  intros Htied. unfold rank. rewrite rank_fold_tied; [reflexivity|].
  intros x y Hx Hy. simpl in Hy.
  apply Htied; rewrite <- (with_ids_snd pool 0);
    apply list_elem_of_fmap; eauto.
Qed.

(** ** Whole runs *)

Section Runs.
Context {RS : RandomSource}.
Implicit Types (w : Coin.World RS) (a self : addr) (loc : Coin.Locals).

Lemma simulate_loop_unfold self (n : Z) w me (l : list Q) :
  Coin.heap w !! self = Some me -> Coin.p me = PList l ->
  Coin.simulate_loop self n w
  = Coin.for_range (Z.to_nat n) self 0
      (Coin.mkLocals (seq (length (Coin.heap w)) (length l)) None [])
      (Coin.mkWorld (Coin.heap w ++ map fresh_coin l)
         (Coin.rng w) (Coin.stdin w) (Coin.cursor w) (Coin.stdout w)).
Proof.
  intros E Hp. unfold Coin.simulate_loop.
  rewrite (bind_ok _ _ _ _ _ (deref_ok _ _ _ E)), Hp.
  now rewrite (bind_ok _ _ _ _ _ (new_coins_run l w)).
Qed.

Lemma simulate_of_loop self (n : Z) w loc w' :
  Coin.simulate_loop self n w = (Ok loc, w') ->
  Coin.simulate self n w
  = (Ok tt, Coin.mkWorld (Coin.heap w') (Coin.rng w') (Coin.stdin w')
              (Coin.cursor w')
              (Coin.stdout w' ++ [PrintLine "Simulation completed!"])).
Proof.
  intros E. unfold Coin.simulate. now rewrite (bind_ok _ _ _ _ _ E).
Qed.

Lemma arms_fresh (l : list Q) : forall (h : list Coin.t),
  arms (h ++ map fresh_coin l) (seq (length h) (length l)) = map fresh_coin l.
Proof.
  unfold arms. induction l as [|q l IH]; intros h; [reflexivity|].
  assert (E0 : (h ++ fresh_coin q :: map fresh_coin l) !! length h
               = Some (fresh_coin q)).
  { rewrite lookup_app_r, Nat.sub_diag by lia. reflexivity. }
  specialize (IH (h ++ [fresh_coin q])).
  rewrite length_app, Nat.add_1_r, <- app_assoc in IH. cbn [app] in IH.
  cbn [length seq map]. unfold omap in *. cbn [list_omap].
  now rewrite E0, IH.
Qed.

(** A pool without coins: the first trial has no coin to toss. *)
Lemma trial_empty self (i : Z) (tr : list (addr * bool)) w :
  Coin.trial self i (Coin.mkLocals [] None tr) w = (Raise UnboundLocalError, w).
Proof. reflexivity. Qed.

End Runs.

Section RunsLaws.
Context {RS : RandomSource} {RL : RandomSourceLaws RS}.
Implicit Types (w : Coin.World RS) (a self : addr) (loc : Coin.Locals).

(** A run over a pool that is not empty, or of no trial at all, ends
    without an exception and in a state that satisfies the invariant. *)
Lemma simulate_loop_run self (n : Z) w me (l : list Q) :
  Coin.heap w !! self = Some me -> Coin.p me = PList l ->
  l <> [] \/ (n <= 0)%Z ->
  exists loc w',
    Coin.simulate_loop self n w = (Ok loc, w')
    /\ Inv (Coin.heap w') loc
    /\ Coin.coins loc = seq (length (Coin.heap w)) (length l)
    /\ length (Coin.trace loc) <= Z.to_nat n
    /\ (length (Coin.trace loc) = Z.to_nat n
        \/ exists j, Coin.cursor w <= j /\ Coin.stdin w j = "n"%string)
    /\ Coin.stdin w' = Coin.stdin w
    /\ (forall a, a < length (Coin.heap w) -> Coin.heap w' !! a = Coin.heap w !! a).
Proof.
  intros E Hp Hcase. rewrite (simulate_loop_unfold self n w me l E Hp).
  set (w0 := Coin.mkWorld _ _ _ _ _). set (loc0 := Coin.mkLocals _ _ _).
  assert (HI0 : Inv (Coin.heap w0) loc0) by apply Inv_fresh.
  assert (Hold : forall a, a < length (Coin.heap w) ->
            Coin.heap w0 !! a = Coin.heap w !! a).
  { intros a Ha. subst w0. cbn [Coin.heap]. now apply lookup_app_l. }
  destruct (decide (l = [])) as [->|Hne].
  - destruct Hcase as [Hcase|Hn]; [congruence|].
    replace (Z.to_nat n) with 0 by lia.
    exists loc0, w0. cbn [Coin.for_range]. split_and!; auto.
  - destruct (for_range_run (Z.to_nat n) self 0 loc0 w0 HI0)
      as (loc & w' & tr & Er & HI & Ecs & Etr & Hle & Hall & _ & Ein & _ & Hoth).
    { subst loc0. cbn [Coin.coins]. destruct l; [congruence|discriminate]. }
    exists loc, w'. rewrite Etr. subst loc0. cbn [Coin.trace Coin.coins] in *.
    split_and!; auto.
    intros a Ha. rewrite Hoth; [now apply Hold|].
    rewrite elem_of_seq. lia.
Qed.

End RunsLaws.

(** * The claims *)

Lemma tied_world_arms : Forall (arm_at (Coin.heap tied_world)) (seq 1 3).
Proof.
  exact (inv_arms _ _ (Inv_fresh [Coin.mk (PList [1 # 5; 1 # 2; 3 # 4]%Q) 1 1]
                         [1 # 5; 1 # 2; 3 # 4]%Q)).
Defined.

(** C1. Over a pool that is not empty, the inner loop of a trial draws
    exactly one sample per coin, in the order of the pool, each from
    [np.random.beta] at that coin's [alpha] and [beta]; it binds [maxcoin]
    to a coin whose sample is the greatest, and to the first such coin:
    every earlier sample is strictly smaller.  The loop changes nothing but
    the state of the generator, what [maxcoin] held before is of no
    account, and the coin bound is the one the trial tosses and updates. *)
Theorem sample_all_picks_first_maximum {RS : RandomSource}
    {RL : RandomSourceLaws RS} (w : Coin.World RS) (cs : list addr)
    (stale : option addr) :
  cs <> [] ->
  Forall (arm_at (Coin.heap w)) cs ->
  exists (m : Q) (samples : list Q) (a j : nat) (w' : Coin.World RS),
    Coin.sample_all cs (-1) [] stale w = (Ok (m, samples, Some a), w')
    /\ (samples, Coin.rng w')
       = one_sample_per_arm (map (posterior_at (Coin.heap w)) cs) (Coin.rng w)
    /\ length samples = length cs
    /\ Coin.heap w' = Coin.heap w
    /\ Coin.stdin w' = Coin.stdin w
    /\ Coin.cursor w' = Coin.cursor w
    /\ Coin.stdout w' = Coin.stdout w
    /\ cs !! j = Some a
    /\ samples !! j = Some m
    /\ (forall k x, samples !! k = Some x -> (x <= m)%Q)
    /\ (forall k x, k < j -> samples !! k = Some x -> (x < m)%Q)
    /\ (forall (self : addr) (i : Z) (tr : list (addr * bool)),
          exists (x stop : bool) (w'' : Coin.World RS),
            Coin.trial self i (Coin.mkLocals cs stale tr) w
            = (Ok (Coin.mkLocals cs (Some a) (tr ++ [(a, x)]), stop), w'')).
Proof.
  intros Hne Harms.
  set (d := one_sample_per_arm (map (posterior_at (Coin.heap w)) cs) (Coin.rng w)).
  assert (Hlen : length cs = length (fst d)).
  { subst d. now rewrite one_sample_per_arm_length, length_map. }
  destruct (pick_winner cs (fst d) stale Hne Hlen)
    as (j & a & Ea & Ej & Em & Hmax & Hfirst).
  { intros k x Hk. eapply one_sample_per_arm_range; [|exact Hk].
    apply arms_positive, Harms. }
  exists (fst (pick cs (fst d) (-1) stale)), (fst d), a, j.
  eexists. split.
  { rewrite (sample_all_run cs w _ _ _ Harms). fold d. rewrite Ea.
    reflexivity. }
  cbn [Coin.heap Coin.rng Coin.stdin Coin.cursor Coin.stdout].
  split_and!; auto; [now destruct d|].
  intros self i tr.
  destruct (trial_run self i (Coin.mkLocals cs stale tr) w Harms Hne)
    as (a' & c & x & w'' & Et & Ea' & _).
  cbn [Coin.coins Coin.maxcoin Coin.trace] in Et, Ea'. fold d in Ea'.
  assert (a' = a) as -> by congruence.
  eexists x, _, w''. exact Et.
Qed.

Lemma sample_all_picks_first_maximum_witness :
  exists (m : Q) (samples : list Q) (a j : nat) (w' : Coin.World Scripted),
    Coin.sample_all (seq 1 3) (-1) [] None tied_world
    = (Ok (m, samples, Some a), w')
    /\ (samples, Coin.rng w')
       = one_sample_per_arm
           (map (posterior_at (Coin.heap tied_world)) (seq 1 3))
           (Coin.rng tied_world)
    /\ length samples = length (seq 1 3)
    /\ Coin.heap w' = Coin.heap tied_world
    /\ Coin.stdin w' = Coin.stdin tied_world
    /\ Coin.cursor w' = Coin.cursor tied_world
    /\ Coin.stdout w' = Coin.stdout tied_world
    /\ seq 1 3 !! j = Some a
    /\ samples !! j = Some m
    /\ (forall k x, samples !! k = Some x -> (x <= m)%Q)
    /\ (forall k x, k < j -> samples !! k = Some x -> (x < m)%Q)
    /\ (forall (self : addr) (i : Z) (tr : list (addr * bool)),
          exists (x stop : bool) (w'' : Coin.World Scripted),
            Coin.trial self i (Coin.mkLocals (seq 1 3) None tr) tied_world
            = (Ok (Coin.mkLocals (seq 1 3) (Some a) (tr ++ [(a, x)]), stop), w'')).
Proof.
  apply (@sample_all_picks_first_maximum Scripted Scripted_laws).
  - discriminate.
  - exact tied_world_arms.
Defined.

(** With the samples 1/3, 2/3, 2/3 the second coin wins: the third ties
    with it and comes later. *)
Example tie_goes_to_lower_index :
  fst (Coin.sample_all (seq 1 3) (-1) [] None tied_world)
  = Ok ((2 # 3)%Q, [1 # 3; 2 # 3; 2 # 3]%Q, Some 2).
Proof. reflexivity. Qed.

(** C2. On the outcome of a toss, [update] succeeds and is the posterior
    update of the specification: a success adds exactly one to [alpha] and
    leaves [beta], a failure adds exactly one to [beta] and leaves [alpha];
    no other object and nothing else in the world changes.  The other
    methods that work on existing coins, [sample], [toss] and [plot], leave
    every object as it was, and [Coin(p)] only adds a new one. *)
Theorem update_observes_outcome {RS : RandomSource} (w : Coin.World RS)
    (self : addr) (c : Coin.t) (success : bool) :
  Coin.heap w !! self = Some c ->
  (exists w' : Coin.World RS,
     Coin.update self (Z.b2z success) w = (Ok tt, w')
     /\ Coin.heap w' !! self = Some (observe c success)
     /\ Coin.alpha (observe c success)
        = (if success then Coin.alpha c + 1 else Coin.alpha c)%Z
     /\ Coin.beta (observe c success)
        = (if success then Coin.beta c else Coin.beta c + 1)%Z
     /\ Coin.p (observe c success) = Coin.p c
     /\ length (Coin.heap w') = length (Coin.heap w)
     /\ (forall a, a <> self -> Coin.heap w' !! a = Coin.heap w !! a)
     /\ Coin.rng w' = Coin.rng w
     /\ Coin.stdin w' = Coin.stdin w
     /\ Coin.cursor w' = Coin.cursor w
     /\ Coin.stdout w' = Coin.stdout w)
  /\ keeps_heap (Coin.sample self)
  /\ keeps_heap (Coin.toss self)
  /\ (forall cs n, keeps_heap (Coin.plot self cs n))
  /\ (forall arg, exists fresh,
        Coin.init arg w = (Ok (length (Coin.heap w)), fresh)
        /\ Coin.heap fresh
           = Coin.heap w ++ [Coin.mk (default (PList []) arg) 1 1]).
Proof.
  intros E. split_and!.
  - eexists. split; [apply (update_run w self c success E)|].
    cbn [Coin.heap Coin.rng Coin.stdin Coin.cursor Coin.stdout].
    split_and!; try reflexivity.
    + apply list_lookup_insert_eq. eapply lookup_lt_Some; eassumption.
    + now destruct success.
    + now destruct success.
    + now destruct success.
    + apply length_insert.
    + intros a Ha. apply list_lookup_insert_ne. congruence.
  - apply sample_keeps_heap.
  - apply toss_keeps_heap.
  - intros cs n. apply plot_keeps_heap.
  - intros arg. eexists. split; reflexivity.
Qed.

Lemma update_observes_outcome_witness :
  (exists w' : Coin.World Scripted,
     Coin.update 2 (Z.b2z true) tied_world = (Ok tt, w')
     /\ Coin.heap w' !! 2 = Some (observe (Coin.mk (PNum (1 # 2)) 1 1) true)
     /\ Coin.alpha (observe (Coin.mk (PNum (1 # 2)) 1 1) true) = (1 + 1)%Z
     /\ Coin.beta (observe (Coin.mk (PNum (1 # 2)) 1 1) true) = 1%Z
     /\ Coin.p (observe (Coin.mk (PNum (1 # 2)) 1 1) true) = PNum (1 # 2)
     /\ length (Coin.heap w') = length (Coin.heap tied_world)
     /\ (forall a, a <> 2 -> Coin.heap w' !! a = Coin.heap tied_world !! a)
     /\ Coin.rng w' = Coin.rng tied_world
     /\ Coin.stdin w' = Coin.stdin tied_world
     /\ Coin.cursor w' = Coin.cursor tied_world
     /\ Coin.stdout w' = Coin.stdout tied_world)
  /\ keeps_heap (RS := Scripted) (Coin.sample 2)
  /\ keeps_heap (RS := Scripted) (Coin.toss 2)
  /\ (forall cs n, keeps_heap (RS := Scripted) (Coin.plot 2 cs n))
  /\ (forall arg, exists fresh,
        Coin.init arg tied_world = (Ok (length (Coin.heap tied_world)), fresh)
        /\ Coin.heap fresh
           = Coin.heap tied_world ++ [Coin.mk (default (PList []) arg) 1 1]).
Proof.
  apply (update_observes_outcome tied_world 2 (Coin.mk (PNum (1 # 2)) 1 1) true).
  reflexivity.
Defined.

(** C9. On an arm, [sample] returns the value [np.random.beta] draws at
    the arm's [alpha] and [beta], a value between 0 and 1, and changes
    nothing but the state of the generator: every object, the arm
    included, the keyboard and the output are as before. *)
Theorem sample_is_pure {RS : RandomSource} {RL : RandomSourceLaws RS}
    (w : Coin.World RS) (self : addr) (c : Coin.t) :
  Coin.heap w !! self = Some c ->
  (1 <= Coin.alpha c)%Z -> (1 <= Coin.beta c)%Z ->
  exists (x : Q) (w' : Coin.World RS),
    Coin.sample self w = (Ok x, w')
    /\ (0 <= x)%Q /\ (x <= 1)%Q
    /\ (x, Coin.rng w')
       = np_random_beta (Coin.alpha c) (Coin.beta c) (Coin.rng w)
    /\ Coin.heap w' = Coin.heap w
    /\ Coin.heap w' !! self = Some c
    /\ Coin.stdin w' = Coin.stdin w
    /\ Coin.cursor w' = Coin.cursor w
    /\ Coin.stdout w' = Coin.stdout w.
Proof.
  intros E Ha Hb. eexists. eexists.
  split; [apply (sample_run w self c E); lia|].
  cbn [Coin.heap Coin.rng Coin.stdin Coin.cursor Coin.stdout].
  pose proof (beta_range (Coin.alpha c) (Coin.beta c) (Coin.rng w)
                ltac:(lia) ltac:(lia)) as [H0 H1].
  split_and!; auto. now destruct (np_random_beta _ _ _).
Qed.

Lemma sample_is_pure_witness :
  exists (x : Q) (w' : Coin.World Scripted),
    Coin.sample 3 tied_world = (Ok x, w')
    /\ (0 <= x)%Q /\ (x <= 1)%Q
    /\ (x, Coin.rng w')
       = np_random_beta (RandomSource := Scripted) 1 1 (Coin.rng tied_world)
    /\ Coin.heap w' = Coin.heap tied_world
    /\ Coin.heap w' !! 3 = Some (Coin.mk (PNum (3 # 4)) 1 1)
    /\ Coin.stdin w' = Coin.stdin tied_world
    /\ Coin.cursor w' = Coin.cursor tied_world
    /\ Coin.stdout w' = Coin.stdout tied_world.
Proof.
  apply (@sample_is_pure Scripted Scripted_laws tied_world 3
           (Coin.mk (PNum (3 # 4)) 1 1)).
  - reflexivity.
  - simpl. lia.
  - simpl. lia.
Defined.

Lemma arms_of_arm_at (h : list Coin.t) (cs : list addr) :
  Forall (arm_at h) cs ->
  length (arms h cs) = length cs /\ Forall is_arm (arms h cs).
Proof.
  unfold arms, omap. induction 1 as [|a cs (c & Ec & Hc) _ [IHl IHf]];
    cbn [list_omap length]; [now split|].
  rewrite Ec. cbn [length]. split; [now rewrite IHl|now constructor].
Qed.

(** C7. Every coin is created with [alpha = 1] and [beta = 1]; an update
    on the outcome of a toss keeps [alpha >= 1] and [beta >= 1], drawing a
    sample changes no coin, and when a run ends, after however many
    trials, every coin of the pool has [alpha >= 1] and [beta >= 1]. *)
Theorem alpha_beta_at_least_one {RS : RandomSource} {RL : RandomSourceLaws RS}
    (w : Coin.World RS) (self : addr) (me : Coin.t) (l : list Q) (n : Z) :
  Coin.heap w !! self = Some me -> Coin.p me = PList l ->
  l <> [] \/ (n <= 0)%Z ->
  (exists (cs : list addr) (w0 : Coin.World RS),
     Coin.new_coins l w = (Ok cs, w0)
     /\ length (arms (Coin.heap w0) cs) = length l
     /\ Forall (fun c => Coin.alpha c = 1%Z /\ Coin.beta c = 1%Z)
          (arms (Coin.heap w0) cs))
  /\ (exists (loc : Coin.Locals) (w' : Coin.World RS),
        Coin.simulate_loop self n w = (Ok loc, w')
        /\ length (arms (Coin.heap w') (Coin.coins loc)) = length l
        /\ Forall (fun c => (1 <= Coin.alpha c)%Z /\ (1 <= Coin.beta c)%Z)
             (arms (Coin.heap w') (Coin.coins loc)))
  /\ (forall (w1 : Coin.World RS) a c (x : bool),
        Coin.heap w1 !! a = Some c ->
        (1 <= Coin.alpha c)%Z -> (1 <= Coin.beta c)%Z ->
        exists c', Coin.heap (snd (Coin.update a (Z.b2z x) w1)) !! a = Some c'
          /\ (1 <= Coin.alpha c')%Z /\ (1 <= Coin.beta c')%Z)
  /\ (forall (w1 : Coin.World RS) a,
        Coin.heap (snd (Coin.sample a w1)) = Coin.heap w1).
Proof.
  intros E Hp Hcase. split_and!.
  - eexists. eexists. split; [apply new_coins_run|].
    cbn [Coin.heap]. rewrite arms_fresh, length_map. split; [reflexivity|].
    apply Forall_map. apply Forall_forall. now intros q _.
  - destruct (simulate_loop_run self n w me l E Hp Hcase)
      as (loc & w' & Er & HI & Ecs & _).
    exists loc, w'. split; [exact Er|].
    destruct (arms_of_arm_at _ _ (inv_arms _ _ HI)) as [Hlen Harms].
    split; [now rewrite Hlen, Ecs, length_seq|].
    eapply Forall_impl; [exact Harms|]. now intros c (_ & H1 & H2).
  - intros w1 a c x Ec H1 H2. rewrite (update_run w1 a c x Ec).
    exists (observe c x). cbn [snd Coin.heap]. split.
    + apply list_lookup_insert_eq. eapply lookup_lt_Some; eassumption.
    + destruct x; simpl; lia.
  - intros w1 a. destruct (Coin.sample a w1) as [r w2] eqn:Es.
    exact (sample_keeps_heap a w1 r w2 Es).
Qed.

Lemma alpha_beta_at_least_one_witness :
  (exists (cs : list addr) (w0 : Coin.World Scripted),
     Coin.new_coins [1 # 5; 1 # 2; 3 # 4]%Q
       (notebook [1 # 5; 1 # 2; 3 # 4]%Q (fun _ => "y"%string)) = (Ok cs, w0)
     /\ length (arms (Coin.heap w0) cs) = length [1 # 5; 1 # 2; 3 # 4]%Q
     /\ Forall (fun c => Coin.alpha c = 1%Z /\ Coin.beta c = 1%Z)
          (arms (Coin.heap w0) cs))
  /\ (exists (loc : Coin.Locals) (w' : Coin.World Scripted),
        Coin.simulate_loop 0 12
          (notebook [1 # 5; 1 # 2; 3 # 4]%Q (fun _ => "y"%string)) = (Ok loc, w')
        /\ length (arms (Coin.heap w') (Coin.coins loc))
           = length [1 # 5; 1 # 2; 3 # 4]%Q
        /\ Forall (fun c => (1 <= Coin.alpha c)%Z /\ (1 <= Coin.beta c)%Z)
             (arms (Coin.heap w') (Coin.coins loc)))
  /\ (forall (w1 : Coin.World Scripted) a c (x : bool),
        Coin.heap w1 !! a = Some c ->
        (1 <= Coin.alpha c)%Z -> (1 <= Coin.beta c)%Z ->
        exists c', Coin.heap (snd (Coin.update a (Z.b2z x) w1)) !! a = Some c'
          /\ (1 <= Coin.alpha c')%Z /\ (1 <= Coin.beta c')%Z)
  /\ (forall (w1 : Coin.World Scripted) a,
        Coin.heap (snd (Coin.sample a w1)) = Coin.heap w1).
Proof.
  apply (@alpha_beta_at_least_one Scripted Scripted_laws _ 0
           (Coin.mk (PList [1 # 5; 1 # 2; 3 # 4]%Q) 1 1)).
  - reflexivity.
  - reflexivity.
  - left. discriminate.
Defined.

(** C5 as stated fails: asked for seven trials, a run whose user answers
    the first prompt, after the trial of index 5, with the letter n has
    done six trials when it prints its last line. *)
Lemma answer_n_stops_early :
  exists (loc : Coin.Locals) (w' : Coin.World Scripted),
    Coin.simulate_loop 0 7 (notebook [1 # 5; 1 # 2; 3 # 4]%Q (fun _ => "n"%string))
    = (Ok loc, w')
    /\ length (Coin.trace loc) = 6
    /\ fst (Coin.simulate 0 7 (notebook [1 # 5; 1 # 2; 3 # 4]%Q (fun _ => "n"%string)))
       = Ok tt
    /\ last (Coin.stdout
               (snd (Coin.simulate 0 7
                       (notebook [1 # 5; 1 # 2; 3 # 4]%Q (fun _ => "n"%string)))))
       = Some (PrintLine "Simulation completed!").
Proof.
  eexists. eexists. split; [vm_compute; reflexivity|].
  split_and!; reflexivity.
Qed.

(** C4, as the code has it.  Nothing validates a configuration: [Coin(p)]
    never raises; over a list of true probabilities that is not empty,
    whatever the values in it, and for any [n], [simulate(n)] ends without
    an exception; and for [n <= 0], negative [n] included, over any list,
    it runs no trial, only creates the coins and prints its last line. *)
Theorem simulate_accepts_every_configuration {RS : RandomSource}
    {RL : RandomSourceLaws RS}
    (w : Coin.World RS) (self : addr) (me : Coin.t) (l : list Q) (n : Z) :
  Coin.heap w !! self = Some me -> Coin.p me = PList l ->
  l <> [] \/ (n <= 0)%Z ->
  (forall (arg : option pval) (w0 : Coin.World RS),
     exists a w1, Coin.init arg w0 = (Ok a, w1))
  /\ (exists w' : Coin.World RS, Coin.simulate self n w = (Ok tt, w'))
  /\ ((n <= 0)%Z ->
      Coin.simulate_loop self n w
      = (Ok (Coin.mkLocals (seq (length (Coin.heap w)) (length l)) None []),
         Coin.mkWorld (Coin.heap w ++ map fresh_coin l)
           (Coin.rng w) (Coin.stdin w) (Coin.cursor w) (Coin.stdout w))
      /\ Coin.simulate self n w
         = (Ok tt,
            Coin.mkWorld (Coin.heap w ++ map fresh_coin l)
              (Coin.rng w) (Coin.stdin w) (Coin.cursor w)
              (Coin.stdout w ++ [PrintLine "Simulation completed!"]))).
Proof.
  intros E Hp Hcase. split_and!.
  - intros arg w0. eexists. eexists. reflexivity.
  - destruct (simulate_loop_run self n w me l E Hp Hcase)
      as (loc & w' & Er & _).
    eexists. exact (simulate_of_loop self n w loc w' Er).
  - intros Hn.
    assert (Er : Coin.simulate_loop self n w
      = (Ok (Coin.mkLocals (seq (length (Coin.heap w)) (length l)) None []),
         Coin.mkWorld (Coin.heap w ++ map fresh_coin l)
           (Coin.rng w) (Coin.stdin w) (Coin.cursor w) (Coin.stdout w))).
    { rewrite (simulate_loop_unfold self n w me l E Hp).
      replace (Z.to_nat n) with 0 by lia. reflexivity. }
    split; [exact Er|]. now rewrite (simulate_of_loop self n w _ _ Er).
Qed.

Lemma simulate_accepts_every_configuration_witness :
  (forall (arg : option pval) (w0 : Coin.World Scripted),
     exists a w1, Coin.init arg w0 = (Ok a, w1))
  /\ (exists w' : Coin.World Scripted,
        Coin.simulate 0 (-3) (notebook [3 # 2; -1 # 4]%Q (fun _ => "y"%string))
        = (Ok tt, w'))
  /\ ((-3 <= 0)%Z ->
      Coin.simulate_loop 0 (-3) (notebook [3 # 2; -1 # 4]%Q (fun _ => "y"%string))
      = (Ok (Coin.mkLocals
               (seq (length (Coin.heap (notebook [3 # 2; -1 # 4]%Q (fun _ => "y"%string))))
                    (length [3 # 2; -1 # 4]%Q)) None []),
         Coin.mkWorld
           (Coin.heap (notebook [3 # 2; -1 # 4]%Q (fun _ => "y"%string))
            ++ map fresh_coin [3 # 2; -1 # 4]%Q)
           (Coin.rng (notebook [3 # 2; -1 # 4]%Q (fun _ => "y"%string)))
           (Coin.stdin (notebook [3 # 2; -1 # 4]%Q (fun _ => "y"%string)))
           (Coin.cursor (notebook [3 # 2; -1 # 4]%Q (fun _ => "y"%string)))
           (Coin.stdout (notebook [3 # 2; -1 # 4]%Q (fun _ => "y"%string))))
      /\ Coin.simulate 0 (-3) (notebook [3 # 2; -1 # 4]%Q (fun _ => "y"%string))
         = (Ok tt,
            Coin.mkWorld
              (Coin.heap (notebook [3 # 2; -1 # 4]%Q (fun _ => "y"%string))
               ++ map fresh_coin [3 # 2; -1 # 4]%Q)
              (Coin.rng (notebook [3 # 2; -1 # 4]%Q (fun _ => "y"%string)))
              (Coin.stdin (notebook [3 # 2; -1 # 4]%Q (fun _ => "y"%string)))
              (Coin.cursor (notebook [3 # 2; -1 # 4]%Q (fun _ => "y"%string)))
              (Coin.stdout (notebook [3 # 2; -1 # 4]%Q (fun _ => "y"%string))
               ++ [PrintLine "Simulation completed!"]))).
Proof.
  apply (@simulate_accepts_every_configuration Scripted Scripted_laws _ 0
           (Coin.mk (PList [3 # 2; -1 # 4]%Q) 1 1)).
  - reflexivity.
  - reflexivity.
  - left. discriminate.
Defined.

(** C4 as stated fails: a true probability of 3/2 and a trial count of
    -1 are both accepted.  With the first, one trial runs to its end and
    updates the coin; with the second, the run ends normally without a
    trial.  In neither is anything raised. *)
Lemma no_configuration_error :
  ~ (3 # 2 <= 1)%Q
  /\ Coin.simulate 0 1 (notebook [3 # 2]%Q (fun _ => "y"%string))
     = (Ok tt,
        Coin.mkWorld [Coin.mk (PList [3 # 2]%Q) 1 1; Coin.mk (PNum (3 # 2)) 2 1]
          ([] : @RNG Scripted) (fun _ => "y"%string) 0
          [PrintLine "Simulation completed!"])
  /\ (-1 < 0)%Z
  /\ Coin.simulate 0 (-1) (notebook [1 # 2]%Q (fun _ => "y"%string))
     = (Ok tt,
        Coin.mkWorld [Coin.mk (PList [1 # 2]%Q) 1 1; Coin.mk (PNum (1 # 2)) 1 1]
          ([] : @RNG Scripted) (fun _ => "y"%string) 0
          [PrintLine "Simulation completed!"]).
Proof.
  split_and!; try reflexivity. intros H. exact (H eq_refl).
Qed.

(** C10. An experiment built by [Coin()] holds the empty list.  Over an
    empty list and for [n >= 1], [simulate] raises [UnboundLocalError] in
    its first trial, where it reads [maxcoin] to update it, and has
    changed nothing by then; a trial over a pool without coins, with
    [maxcoin] not bound, always does.  Over a list that is not empty the
    first trial binds [maxcoin] to a coin of the pool, runs to its end, and
    so does the run. *)
Theorem empty_pool_unbound_maxcoin {RS : RandomSource} {RL : RandomSourceLaws RS}
    (w : Coin.World RS) (self : addr) (me : Coin.t) (l : list Q) (n : Z) :
  Coin.heap w !! self = Some me -> Coin.p me = PList l -> (1 <= n)%Z ->
  (exists fresh : Coin.World RS,
     Coin.init None w = (Ok (length (Coin.heap w)), fresh)
     /\ Coin.heap fresh !! length (Coin.heap w) = Some (Coin.mk (PList []) 1 1))
  /\ (forall (i : Z) (tr : list (addr * bool)) (w0 : Coin.World RS),
        Coin.trial self i (Coin.mkLocals [] None tr) w0
        = (Raise UnboundLocalError, w0))
  /\ (l = [] ->
      Coin.simulate_loop self n w = (Raise UnboundLocalError, w)
      /\ Coin.simulate self n w = (Raise UnboundLocalError, w))
  /\ (l <> [] ->
      (exists a x stop (w1 : Coin.World RS),
         Coin.trial self 0
           (Coin.mkLocals (seq (length (Coin.heap w)) (length l)) None [])
           (Coin.mkWorld (Coin.heap w ++ map fresh_coin l)
              (Coin.rng w) (Coin.stdin w) (Coin.cursor w) (Coin.stdout w))
         = (Ok (Coin.mkLocals (seq (length (Coin.heap w)) (length l)) (Some a)
                  [(a, x)], stop), w1)
         /\ a ∈ seq (length (Coin.heap w)) (length l))
      /\ exists loc (w' : Coin.World RS),
           Coin.simulate_loop self n w = (Ok loc, w')).
Proof.
  intros E Hp Hn. split_and!.
  - eexists. split; [reflexivity|]. cbn [Coin.heap].
    rewrite lookup_app_r, Nat.sub_diag by lia. reflexivity.
  - intros i tr w0. apply trial_empty.
  - intros ->.
    assert (Er : Coin.simulate_loop self n w = (Raise UnboundLocalError, w)).
    { rewrite (simulate_loop_unfold self n w me [] E Hp).
      destruct (Z.to_nat n) as [|k] eqn:Ek; [lia|].
      destruct w as [h g keys cur out]. cbn. now rewrite app_nil_r. }
    split; [exact Er|]. unfold Coin.simulate. now rewrite (bind_raise _ _ _ _ _ Er).
  - intros Hne. split.
    + destruct (trial_run self 0
                  (Coin.mkLocals (seq (length (Coin.heap w)) (length l)) None [])
                  (Coin.mkWorld (Coin.heap w ++ map fresh_coin l)
                     (Coin.rng w) (Coin.stdin w) (Coin.cursor w) (Coin.stdout w)))
        as (a & c & x & w1 & Et & _ & Ha & _).
      { apply (inv_arms _ _ (Inv_fresh (Coin.heap w) l)). }
      { cbn [Coin.coins]. destruct l; [congruence|discriminate]. }
      exists a, x. eexists. exists w1. split; [exact Et|exact Ha].
    + destruct (simulate_loop_run self n w me l E Hp (or_introl Hne))
        as (loc & w' & Er & _).
      now exists loc, w'.
Qed.

Lemma empty_pool_unbound_maxcoin_witness :
  (exists fresh : Coin.World Scripted,
     Coin.init None (notebook [] (fun _ => "y"%string))
     = (Ok (length (Coin.heap (notebook [] (fun _ => "y"%string)))), fresh)
     /\ Coin.heap fresh !! length (Coin.heap (notebook [] (fun _ => "y"%string)))
        = Some (Coin.mk (PList []) 1 1))
  /\ (forall (i : Z) (tr : list (addr * bool)) (w0 : Coin.World Scripted),
        Coin.trial 0 i (Coin.mkLocals [] None tr) w0
        = (Raise UnboundLocalError, w0))
  /\ (@nil Q = [] ->
      Coin.simulate_loop 0 1 (notebook [] (fun _ => "y"%string))
      = (Raise UnboundLocalError, notebook [] (fun _ => "y"%string))
      /\ Coin.simulate 0 1 (notebook [] (fun _ => "y"%string))
         = (Raise UnboundLocalError, notebook [] (fun _ => "y"%string)))
  /\ (@nil Q <> [] ->
      (exists a x stop (w1 : Coin.World Scripted),
         Coin.trial 0 0
           (Coin.mkLocals
              (seq (length (Coin.heap (notebook [] (fun _ => "y"%string))))
                   (length (@nil Q))) None [])
           (Coin.mkWorld
              (Coin.heap (notebook [] (fun _ => "y"%string)) ++ map fresh_coin [])
              (Coin.rng (notebook [] (fun _ => "y"%string)))
              (Coin.stdin (notebook [] (fun _ => "y"%string)))
              (Coin.cursor (notebook [] (fun _ => "y"%string)))
              (Coin.stdout (notebook [] (fun _ => "y"%string))))
         = (Ok (Coin.mkLocals
                  (seq (length (Coin.heap (notebook [] (fun _ => "y"%string))))
                       (length (@nil Q))) (Some a) [(a, x)], stop), w1)
         /\ a ∈ seq (length (Coin.heap (notebook [] (fun _ => "y"%string))))
                    (length (@nil Q)))
      /\ exists loc (w' : Coin.World Scripted),
           Coin.simulate_loop 0 1 (notebook [] (fun _ => "y"%string)) = (Ok loc, w')).
Proof.
  apply (@empty_pool_unbound_maxcoin Scripted Scripted_laws _ 0
           (Coin.mk (PList []) 1 1) [] 1).
  - reflexivity.
  - reflexivity.
  - lia.
Defined.

(** The two cases of C10 on the scripted source: [Coin().simulate(1)]
    raises and leaves the world as it was; with one coin the trial binds
    [maxcoin] to it. *)
Example empty_pool_raises :
  Coin.simulate 0 1 (notebook [] (fun _ => "y"%string))
  = (Raise UnboundLocalError, notebook [] (fun _ => "y"%string)).
Proof. reflexivity. Qed.

Example one_coin_binds_maxcoin :
  fst (Coin.simulate_loop 0 1 (notebook [1 # 2]%Q (fun _ => "y"%string)))
  = Ok (Coin.mkLocals [1] (Some 1) [(1, false)]).
Proof. reflexivity. Qed.

(** C8. With a trial count of 0 nothing runs: [simulate] creates the
    coins, draws nothing, asks nothing, and prints its last line; every
    coin keeps [alpha = 1] and [beta = 1], its posterior mean is one half,
    and the ranking lists the coins in the order of their ids. *)
Theorem zero_trials_is_noop {RS : RandomSource}
    (w : Coin.World RS) (self : addr) (me : Coin.t) (l : list Q) :
  Coin.heap w !! self = Some me -> Coin.p me = PList l ->
  exists w' : Coin.World RS,
    Coin.simulate_loop self 0 w
    = (Ok (Coin.mkLocals (seq (length (Coin.heap w)) (length l)) None []), w')
    /\ Coin.simulate self 0 w
       = (Ok tt, Coin.mkWorld (Coin.heap w') (Coin.rng w') (Coin.stdin w')
                   (Coin.cursor w')
                   (Coin.stdout w' ++ [PrintLine "Simulation completed!"]))
    /\ Coin.heap w' = Coin.heap w ++ map fresh_coin l
    /\ Coin.rng w' = Coin.rng w
    /\ Coin.stdin w' = Coin.stdin w
    /\ Coin.cursor w' = Coin.cursor w
    /\ Coin.stdout w' = Coin.stdout w
    /\ arms (Coin.heap w') (seq (length (Coin.heap w)) (length l))
       = map fresh_coin l
    /\ Forall (fun c => Coin.alpha c = 1%Z /\ Coin.beta c = 1%Z
                        /\ (posterior_mean c == 1 # 2)%Q) (map fresh_coin l)
    /\ map fst (rank (map fresh_coin l)) = seq 0 (length l)
    /\ map snd (rank (map fresh_coin l)) = map fresh_coin l.
Proof.
  intros E Hp.
  assert (Er := simulate_loop_unfold self 0 w me l E Hp).
  cbn [Z.to_nat Coin.for_range] in Er. unfold Coin.ret in Er.
  eexists. split; [exact Er|].
  split; [exact (simulate_of_loop self 0 w _ _ Er)|].
  cbn [Coin.heap Coin.rng Coin.stdin Coin.cursor Coin.stdout].
  assert (Hrank : rank (map fresh_coin l) = with_ids 0 (map fresh_coin l)).
  { apply rank_tied. intros c1 c2 H1 H2.
    apply list_elem_of_fmap in H1 as (q1 & -> & _).
    apply list_elem_of_fmap in H2 as (q2 & -> & _). reflexivity. }
  split_and!; try reflexivity.
  - apply arms_fresh.
  - apply Forall_map, Forall_forall. intros q _. now split_and!.
  - now rewrite Hrank, with_ids_fst, length_map.
  - now rewrite Hrank, with_ids_snd.
Qed.

Lemma zero_trials_is_noop_witness :
  exists w' : Coin.World Scripted,
    Coin.simulate_loop 0 0 (notebook [1 # 5; 1 # 2; 3 # 4]%Q (fun _ => "y"%string))
    = (Ok (Coin.mkLocals
             (seq (length (Coin.heap (notebook [1 # 5; 1 # 2; 3 # 4]%Q
                                        (fun _ => "y"%string))))
                  (length [1 # 5; 1 # 2; 3 # 4]%Q)) None []), w')
    /\ Coin.simulate 0 0 (notebook [1 # 5; 1 # 2; 3 # 4]%Q (fun _ => "y"%string))
       = (Ok tt, Coin.mkWorld (Coin.heap w') (Coin.rng w') (Coin.stdin w')
                   (Coin.cursor w')
                   (Coin.stdout w' ++ [PrintLine "Simulation completed!"]))
    /\ Coin.heap w'
       = Coin.heap (notebook [1 # 5; 1 # 2; 3 # 4]%Q (fun _ => "y"%string))
         ++ map fresh_coin [1 # 5; 1 # 2; 3 # 4]%Q
    /\ Coin.rng w' = Coin.rng (notebook [1 # 5; 1 # 2; 3 # 4]%Q (fun _ => "y"%string))
    /\ Coin.stdin w'
       = Coin.stdin (notebook [1 # 5; 1 # 2; 3 # 4]%Q (fun _ => "y"%string))
    /\ Coin.cursor w'
       = Coin.cursor (notebook [1 # 5; 1 # 2; 3 # 4]%Q (fun _ => "y"%string))
    /\ Coin.stdout w'
       = Coin.stdout (notebook [1 # 5; 1 # 2; 3 # 4]%Q (fun _ => "y"%string))
    /\ arms (Coin.heap w')
         (seq (length (Coin.heap (notebook [1 # 5; 1 # 2; 3 # 4]%Q
                                    (fun _ => "y"%string))))
              (length [1 # 5; 1 # 2; 3 # 4]%Q))
       = map fresh_coin [1 # 5; 1 # 2; 3 # 4]%Q
    /\ Forall (fun c => Coin.alpha c = 1%Z /\ Coin.beta c = 1%Z
                        /\ (posterior_mean c == 1 # 2)%Q)
         (map fresh_coin [1 # 5; 1 # 2; 3 # 4]%Q)
    /\ map fst (rank (map fresh_coin [1 # 5; 1 # 2; 3 # 4]%Q))
       = seq 0 (length [1 # 5; 1 # 2; 3 # 4]%Q)
    /\ map snd (rank (map fresh_coin [1 # 5; 1 # 2; 3 # 4]%Q))
       = map fresh_coin [1 # 5; 1 # 2; 3 # 4]%Q.
Proof.
  apply (@zero_trials_is_noop Scripted _ 0
           (Coin.mk (PList [1 # 5; 1 # 2; 3 # 4]%Q) 1 1)).
  - reflexivity.
  - reflexivity.
Defined.

(** C6, as the code has it.  Take two runs of [simulate(n)] on the same
    experiment, from the same state of the generator, in which the user
    gives the same answers: the lines the first run reads are the same in
    the second.  The two runs select the same coins in the same order,
    see the same outcomes, end with the same [alpha] and [beta] in every
    coin and the same generator state, and print the same. *)
Theorem same_seed_same_answers_same_run {RS : RandomSource}
    (w1 w2 : Coin.World RS) (self : addr) (n : Z) :
  Coin.heap w1 = Coin.heap w2 ->
  Coin.rng w1 = Coin.rng w2 ->
  Coin.cursor w1 = Coin.cursor w2 ->
  Coin.stdout w1 = Coin.stdout w2 ->
  (forall k,
     Coin.cursor w1 <= k < Coin.cursor (snd (Coin.simulate self n w1)) ->
     Coin.stdin w1 k = Coin.stdin w2 k) ->
  fst (Coin.simulate_loop self n w1) = fst (Coin.simulate_loop self n w2)
  /\ Coin.heap (snd (Coin.simulate_loop self n w1))
     = Coin.heap (snd (Coin.simulate_loop self n w2))
  /\ Coin.rng (snd (Coin.simulate_loop self n w1))
     = Coin.rng (snd (Coin.simulate_loop self n w2))
  /\ fst (Coin.simulate self n w1) = fst (Coin.simulate self n w2)
  /\ Coin.stdout (snd (Coin.simulate self n w1))
     = Coin.stdout (snd (Coin.simulate self n w2)).
Proof.
  intros Eh Eg Ec Eo Ek.
  assert (H : same_state w1 w2) by (unfold same_state; auto).
  destruct (replayable_simulate_loop self n) as [_ Hloop].
  destruct (replayable_simulate self n) as [_ Hsim].
  destruct (Hloop w1 w2 H) as (E1 & Eh1 & Eg1 & _).
  { intros k Hk. apply Ek. now rewrite simulate_cursor. }
  destruct (Hsim w1 w2 H Ek) as (E2 & _ & _ & _ & Eo2).
  auto.
Qed.

(** The trials of index 5 and 10 prompt, so a run of twelve trials reads
    two lines; what would be typed after them is of no account. *)
Lemma same_seed_same_answers_same_run_witness :
  fst (Coin.simulate_loop 0 12 (notebook [1 # 5; 1 # 2; 3 # 4]%Q (fun _ => "y"%string)))
  = fst (Coin.simulate_loop 0 12
           (notebook [1 # 5; 1 # 2; 3 # 4]%Q
              (fun k => if (k <? 2)%nat then "y"%string else "n"%string)))
  /\ Coin.heap (snd (Coin.simulate_loop 0 12 (notebook [1 # 5; 1 # 2; 3 # 4]%Q (fun _ => "y"%string))))
     = Coin.heap (snd (Coin.simulate_loop 0 12
           (notebook [1 # 5; 1 # 2; 3 # 4]%Q
              (fun k => if (k <? 2)%nat then "y"%string else "n"%string))))
  /\ Coin.rng (snd (Coin.simulate_loop 0 12 (notebook [1 # 5; 1 # 2; 3 # 4]%Q (fun _ => "y"%string))))
     = Coin.rng (snd (Coin.simulate_loop 0 12
           (notebook [1 # 5; 1 # 2; 3 # 4]%Q
              (fun k => if (k <? 2)%nat then "y"%string else "n"%string))))
  /\ fst (Coin.simulate 0 12 (notebook [1 # 5; 1 # 2; 3 # 4]%Q (fun _ => "y"%string)))
     = fst (Coin.simulate 0 12
           (notebook [1 # 5; 1 # 2; 3 # 4]%Q
              (fun k => if (k <? 2)%nat then "y"%string else "n"%string)))
  /\ Coin.stdout (snd (Coin.simulate 0 12 (notebook [1 # 5; 1 # 2; 3 # 4]%Q (fun _ => "y"%string))))
     = Coin.stdout (snd (Coin.simulate 0 12
           (notebook [1 # 5; 1 # 2; 3 # 4]%Q
              (fun k => if (k <? 2)%nat then "y"%string else "n"%string)))).
Proof.
  apply same_seed_same_answers_same_run; try reflexivity.
  intros k [_ Hk].
  change (Coin.cursor (snd (Coin.simulate 0 12 (notebook [1 # 5; 1 # 2; 3 # 4]%Q (fun _ => "y"%string))))) with 2 in Hk.
  destruct k as [|[|k]]; [reflexivity|reflexivity|lia].
Defined.

(** C6 as stated fails: the same experiment, the same count of seven
    trials and the same state of the generator, and yet the coins selected
    and the final posteriors differ, because one user answers the prompt
    with the letter y and the other with the letter n. *)
Lemma answers_change_the_run :
  Coin.heap (notebook [1 # 5; 1 # 2; 3 # 4]%Q (fun _ => "y"%string))
  = Coin.heap (notebook [1 # 5; 1 # 2; 3 # 4]%Q (fun _ => "n"%string))
  /\ Coin.rng (notebook [1 # 5; 1 # 2; 3 # 4]%Q (fun _ => "y"%string))
     = Coin.rng (notebook [1 # 5; 1 # 2; 3 # 4]%Q (fun _ => "n"%string))
  /\ exists loc1 loc2 (w1 w2 : Coin.World Scripted),
       Coin.simulate_loop 0 7 (notebook [1 # 5; 1 # 2; 3 # 4]%Q (fun _ => "y"%string))
       = (Ok loc1, w1)
       /\ Coin.simulate_loop 0 7 (notebook [1 # 5; 1 # 2; 3 # 4]%Q (fun _ => "n"%string))
          = (Ok loc2, w2)
       /\ map fst (Coin.trace loc1) <> map fst (Coin.trace loc2)
       /\ Coin.heap w1 <> Coin.heap w2.
Proof.
  split; [reflexivity|]. split; [reflexivity|].
  eexists. eexists. eexists. eexists.
  split; [vm_compute; reflexivity|]. split; [vm_compute; reflexivity|].
  split; discriminate.
Qed.

(** * Further properties of the notebook *)

Lemma quarter_range (n : nat) : (0 <= quarter n)%Q /\ (quarter n < 1)%Q.
Proof.
  unfold quarter, Qle, Qlt. simpl.
  pose proof (Nat.mod_upper_bound n 4 ltac:(lia)). lia.
Qed.

Lemma Quarters_laws : RandomSourceLaws Quarters.
Proof.
  constructor. intros a b g _ _. simpl.
  destruct (quarter_range g) as [H0 H1]. split; [exact H0|].
  now apply Qlt_le_weak.
Qed.

Lemma Quarters_uniform : UniformLaws Quarters.
Proof. constructor. intros g. apply quarter_range. Qed.

Section Plotting.
Context {RS : RandomSource}.
Implicit Types (w : Coin.World RS) (a self : addr) (cs : list addr).

Lemma plot_curves_exact cs w :
  Forall (fun a => is_Some (Coin.heap w !! a)) cs ->
  Coin.plot_curves cs w = (Ok (curves (Coin.heap w) cs), w).
Proof.
  unfold curves, arms, omap.
  induction 1 as [|a cs [c Ec] _ IH]; [reflexivity|].
  cbn [Coin.plot_curves list_omap].
  rewrite (bind_ok _ _ _ _ _ (deref_ok _ _ _ Ec)).
  rewrite (bind_ok _ _ _ _ _ IH). now rewrite Ec.
Qed.

Lemma arms_present (h : list Coin.t) cs :
  Forall (arm_at h) cs -> Forall (fun a => is_Some (h !! a)) cs.
Proof.
  intros H. eapply Forall_impl; [exact H|]. intros a (c & Ec & _). now exists c.
Qed.

End Plotting.

Section TrialEffects.
Context {RS : RandomSource} {RL : RandomSourceLaws RS}.
Implicit Types (w : Coin.World RS) (a self : addr) (loc : Coin.Locals).

(** Everything a trial over a pool that is not empty does to the world. *)
Lemma trial_effects self (i : Z) loc w :
  Forall (arm_at (Coin.heap w)) (Coin.coins loc) -> Coin.coins loc <> [] ->
  exists a c q x w',
    Coin.trial self i loc w
    = (Ok (Coin.mkLocals (Coin.coins loc) (Some a) (Coin.trace loc ++ [(a, x)]),
           is_plot_trial i && String.eqb (Coin.stdin w (Coin.cursor w)) "n"), w')
    /\ a ∈ Coin.coins loc /\ Coin.heap w !! a = Some c /\ Coin.p c = PNum q
    /\ x = Qltb (fst (np_random_rand
                        (snd (one_sample_per_arm
                                (map (posterior_at (Coin.heap w)) (Coin.coins loc))
                                (Coin.rng w))))) q
    /\ Coin.heap w' = <[a := observe c x]> (Coin.heap w)
    /\ Coin.rng w'
       = snd (np_random_rand
                (snd (one_sample_per_arm
                        (map (posterior_at (Coin.heap w)) (Coin.coins loc))
                        (Coin.rng w))))
    /\ Coin.stdin w' = Coin.stdin w
    /\ Coin.cursor w' = (if is_plot_trial i then S (Coin.cursor w) else Coin.cursor w)
    /\ Coin.stdout w'
       = Coin.stdout w
         ++ (if is_plot_trial i
             then [PrintSamples
                     (fst (one_sample_per_arm
                             (map (posterior_at (Coin.heap w)) (Coin.coins loc))
                             (Coin.rng w)));
                   Plot (curves (Coin.heap w') (Coin.coins loc)) i;
                   Prompt "Continue?"]
                  ++ (if String.eqb (Coin.stdin w (Coin.cursor w)) "n"
                      then [] else [ClearOutput])
             else []).
Proof.
  intros Harms Hne.
  unfold Coin.trial.
  rewrite (bind_ok _ _ _ _ _ (sample_all_run _ w _ _ _ Harms)).
  set (d := one_sample_per_arm (map (posterior_at (Coin.heap w)) (Coin.coins loc))
              (Coin.rng w)).
  destruct (pick_winner (Coin.coins loc) (fst d) (Coin.maxcoin loc) Hne)
    as (j & a & Ea & Ej & _).
  { subst d. now rewrite one_sample_per_arm_length, length_map. }
  { intros k x Hk. eapply one_sample_per_arm_range; [|exact Hk].
    apply arms_positive, Harms. }
  rewrite Ea.
  assert (Ha : a ∈ Coin.coins loc) by (eapply list_elem_of_lookup_2; exact Ej).
  destruct (proj1 (Forall_forall _ _) Harms a Ha) as (c & Ec & (q & Hq) & H1 & H2).
  set (w1 := Coin.mkWorld _ _ _ _ _).
  rewrite (bind_ok _ _ _ _ _ (toss_run w1 a c q Ec Hq)).
  set (x := Qltb _ _). set (w2 := Coin.mkWorld _ _ _ _ _).
  rewrite (bind_ok _ _ _ _ _ (update_run w2 a c x Ec)).
  set (w3 := Coin.mkWorld _ _ _ _ _).
  exists a, c, q, x.
  destruct (is_plot_trial i).
  - unfold Coin.emit at 1. unfold Coin.bind at 1.
    set (w4 := Coin.mkWorld _ _ _ _ _).
    assert (Ev : Coin.plot_curves (Coin.coins loc) w4
                 = (Ok (curves (Coin.heap w4) (Coin.coins loc)), w4)).
    { apply plot_curves_exact, arms_present. subst w4 w3. cbn [Coin.heap].
      eapply Forall_impl; [exact Harms|]. intros a' Ha'.
      apply arm_at_insert; [exact Ha'|].
      destruct x; (split; [exists q; exact Hq|simpl; lia]). }
    unfold Coin.plot.
    rewrite (bind_ok _ _ _ _ _ (bind_ok _ _ _ _ _ Ev)).
    unfold Coin.emit, Coin.input, Coin.bind. cbn [Coin.stdin Coin.cursor].
    subst w4 w3 w2 w1. cbn [Coin.stdin Coin.cursor Coin.heap Coin.rng Coin.stdout].
    rewrite app_nil_l.
    destruct (String.eqb _ _); eexists; (split; [reflexivity|]);
      cbn [Coin.stdin Coin.cursor Coin.heap Coin.rng Coin.stdout];
      split_and!; auto; rewrite <- ?app_assoc; reflexivity.
  - exists w3. split; [reflexivity|]. subst w3 w2 w1.
    cbn [Coin.stdin Coin.cursor Coin.heap Coin.rng Coin.stdout].
    split_and!; auto. now rewrite app_nil_r.
Qed.

End TrialEffects.

(** ** Which trials plot *)

Lemma plot_trials_NoDup : NoDup plot_trials.
Proof. apply (bool_decide_unpack _). vm_compute. exact I. Qed.

Lemma existsb_absent (l : list Z) (i : Z) :
  i ∉ l -> existsb (Z.eqb i) l = false.
Proof.
  induction l as [|t r IH]; intros Hi; [reflexivity|]. simpl.
  destruct (Z.eqb_spec i t) as [->|_]; [exfalso; apply Hi; left|].
  apply IH. intros H. apply Hi. now right.
Qed.

Lemma filter_from_step (l : list Z) (i m : Z) :
  NoDup l -> (i < m)%Z ->
  length (List.filter (fun t => (i <=? t) && (t <? m))%Z l)
  = (if existsb (Z.eqb i) l then 1 else 0)
    + length (List.filter (fun t => (i + 1 <=? t) && (t <? m))%Z l).
Proof.
  induction 1 as [|t r Hnotin Hnd IH]; intros Him; [reflexivity|].
  specialize (IH Him). cbn [List.filter existsb].
  destruct (Z.eqb_spec i t) as [->|Hne].
  - rewrite (existsb_absent r t Hnotin) in IH.
    replace (t <=? t)%Z with true by (symmetry; apply Z.leb_le; lia).
    replace (t <? m)%Z with true by (symmetry; apply Z.ltb_lt; lia).
    replace (t + 1 <=? t)%Z with false by (symmetry; apply Z.leb_gt; lia).
    simpl. now rewrite IH.
  - replace (i + 1 <=? t)%Z with (i <=? t)%Z
      by (destruct (Z.leb_spec i t), (Z.leb_spec (i + 1) t); (reflexivity || lia)).
    simpl. destruct ((i <=? t)%Z && (t <? m)%Z); simpl; rewrite IH;
      destruct (existsb (Z.eqb i) r); lia.
Qed.

Lemma listed_between_step (i m : Z) :
  (i < m)%Z ->
  listed_between i m
  = (if is_plot_trial i then 1 else 0) + listed_between (i + 1) m.
Proof. apply filter_from_step, plot_trials_NoDup. Qed.

Lemma listed_between_empty (i : Z) : listed_between i i = 0.
Proof.
  unfold listed_between. induction plot_trials as [|t r IH]; [reflexivity|].
  simpl. destruct (Z.leb_spec i t), (Z.ltb_spec t i); simpl; (exact IH || lia).
Qed.


Lemma is_plot_trial_before_5 (i : Z) :
  (0 <= i < 5)%Z -> is_plot_trial i = false.
Proof.
  intros Hi. unfold is_plot_trial, plot_trials. cbn [existsb].
  repeat (match goal with
          | |- context [(i =? ?t)%Z] =>
              replace (i =? t)%Z with false by (symmetry; apply Z.eqb_neq; lia)
          end).
  reflexivity.
Qed.

(** ** The plan of a run *)

Lemma plan_short (k : nat) : forall (i : Z) keys cur,
  (0 <= i)%Z -> (i + Z.of_nat k <= 5)%Z -> plan k i keys cur = (k, 0).
Proof.
  induction k as [|k IH]; intros i keys cur H0 H5; [reflexivity|].
  cbn [plan]. rewrite is_plot_trial_before_5 by lia.
  now rewrite IH by lia.
Qed.



Lemma plan_stop_at_first_prompt (k : nat) keys cur :
  6 <= k -> keys cur = "n"%string -> plan k 0 keys cur = (6, 1).
Proof.
  intros Hk E.
  do 6 (destruct k as [|k]; [lia|]). cbn [plan].
  change (is_plot_trial 0) with false.
  change (is_plot_trial (0 + 1)) with false.
  change (is_plot_trial (0 + 1 + 1)) with false.
  change (is_plot_trial (0 + 1 + 1 + 1)) with false.
  change (is_plot_trial (0 + 1 + 1 + 1 + 1)) with false.
  change (is_plot_trial (0 + 1 + 1 + 1 + 1 + 1)) with true.
  cbv iota. now rewrite E.
Qed.

(** ** The loop against its plan *)

Section LoopPlan.
Context {RS : RandomSource} {RL : RandomSourceLaws RS}.
Implicit Types (w : Coin.World RS) (a self : addr) (loc : Coin.Locals).

(** The loop runs the trials and reads the lines its plan tells, and
    keeps every property of the heap that the update of one coin of the
    pool keeps. *)
Lemma for_range_plan (k : nat) : forall self (i : Z) loc w,
  Inv (Coin.heap w) loc -> Coin.coins loc <> [] ->
  exists loc' w',
    Coin.for_range k self i loc w = (Ok loc', w')
    /\ Inv (Coin.heap w') loc'
    /\ Coin.coins loc' = Coin.coins loc
    /\ length (Coin.trace loc')
       = length (Coin.trace loc) + fst (plan k i (Coin.stdin w) (Coin.cursor w))
    /\ Coin.cursor w'
       = Coin.cursor w + snd (plan k i (Coin.stdin w) (Coin.cursor w))
    /\ Coin.stdin w' = Coin.stdin w
    /\ (forall P : list Coin.t -> Prop,
          (forall h a c x, P h -> a ∈ Coin.coins loc -> h !! a = Some c ->
                           P (<[a := observe c x]> h)) ->
          P (Coin.heap w) -> P (Coin.heap w')).
Proof.
  induction k as [|k IH]; intros self i loc w HI Hne.
  - exists loc, w. simpl. split_and!; auto; lia.
  - destruct (trial_run self i loc w (inv_arms _ _ HI) Hne)
      as (a & c & x & w1 & Et & _ & Ha & Ec & Eh & Ein & Ecur).
    cbn [Coin.for_range plan]. rewrite (bind_ok _ _ _ _ _ Et).
    set (loc1 := Coin.mkLocals _ _ _).
    assert (HI1 : Inv (Coin.heap w1) loc1) by (rewrite Eh; now apply Inv_step).
    destruct (is_plot_trial i) eqn:Eplot; cbn [andb].
    + destruct (String.eqb (Coin.stdin w (Coin.cursor w)) "n") eqn:Estop.
      * exists loc1, w1. subst loc1. cbn [Coin.trace Coin.coins fst snd].
        rewrite length_app. cbn [length]. split_and!; auto; try lia.
        intros P HP H0. rewrite Eh. now apply HP.
      * destruct (IH self (i + 1)%Z loc1 w1 HI1 Hne)
          as (loc' & w' & Er & HI' & Ecs & Elen & Ecur' & Ein' & Hstab).
        rewrite Ein, Ecur in Elen, Ecur'.
        destruct (plan k (i + 1) (Coin.stdin w) (S (Coin.cursor w))) as [t r].
        exists loc', w'. subst loc1. cbn [Coin.trace Coin.coins fst snd] in *.
        rewrite length_app in Elen. cbn [length] in Elen.
        split_and!; auto; try lia; try congruence.
        intros P HP H0. apply Hstab; [exact HP|]. rewrite Eh. now apply HP.
    + destruct (IH self (i + 1)%Z loc1 w1 HI1 Hne)
        as (loc' & w' & Er & HI' & Ecs & Elen & Ecur' & Ein' & Hstab).
      rewrite Ein, Ecur in Elen, Ecur'.
      destruct (plan k (i + 1) (Coin.stdin w) (Coin.cursor w)) as [t r].
      exists loc', w'. subst loc1. cbn [Coin.trace Coin.coins fst snd] in *.
      rewrite length_app in Elen. cbn [length] in Elen.
      split_and!; auto; try lia; try congruence.
      intros P HP H0. apply Hstab; [exact HP|]. rewrite Eh. now apply HP.
Qed.

Lemma simulate_loop_plan self (n : Z) w me (l : list Q) :
  Coin.heap w !! self = Some me -> Coin.p me = PList l -> l <> [] ->
  exists loc w',
    Coin.simulate_loop self n w = (Ok loc, w')
    /\ Inv (Coin.heap w') loc
    /\ Coin.coins loc = seq (length (Coin.heap w)) (length l)
    /\ length (Coin.trace loc)
       = fst (plan (Z.to_nat n) 0 (Coin.stdin w) (Coin.cursor w))
    /\ Coin.cursor w'
       = Coin.cursor w + snd (plan (Z.to_nat n) 0 (Coin.stdin w) (Coin.cursor w))
    /\ Coin.stdin w' = Coin.stdin w
    /\ (forall P : list Coin.t -> Prop,
          (forall h a c x, P h -> a ∈ seq (length (Coin.heap w)) (length l) ->
                           h !! a = Some c -> P (<[a := observe c x]> h)) ->
          P (Coin.heap w ++ map fresh_coin l) -> P (Coin.heap w')).
Proof.
  intros E Hp Hne. rewrite (simulate_loop_unfold self n w me l E Hp).
  set (w0 := Coin.mkWorld _ _ _ _ _). set (loc0 := Coin.mkLocals _ _ _).
  destruct (for_range_plan (Z.to_nat n) self 0 loc0 w0)
    as (loc & w' & Er & HI & Ecs & Elen & Ecur & Ein & Hstab).
  { apply Inv_fresh. }
  { subst loc0. cbn [Coin.coins]. destruct l; [congruence|discriminate]. }
  exists loc, w'. subst loc0 w0.
  cbn [Coin.trace Coin.coins Coin.heap Coin.stdin Coin.cursor length] in *.
  split_and!; auto.
Qed.

End LoopPlan.

(** ** Tossing, sampling and updating *)

Lemma quarters_pool_arms (l : list Q) keys :
  Forall (arm_at (Coin.heap (quarters_pool l keys))) (seq 1 (length l)).
Proof.
  exact (inv_arms _ _ (Inv_fresh [Coin.mk (PList l) 1 1] l)).
Defined.

(** X1. [toss] draws once from [np.random.rand] and changes nothing else.
    On a coin it returns whether the draw is below the coin's [p]: always
    heads when [p >= 1], always tails when [p <= 0].  On the experiment
    object, whose [p] is a list, it raises [TypeError], and the draw is
    spent all the same. *)
Theorem toss_outcome {RS : RandomSource} {UL : UniformLaws RS}
    (w : Coin.World RS) (self : addr) (c : Coin.t) :
  Coin.heap w !! self = Some c ->
  match Coin.p c with
  | PNum q =>
      Coin.toss self w
      = (Ok (Qltb (fst (np_random_rand (Coin.rng w))) q),
         Coin.mkWorld (Coin.heap w) (snd (np_random_rand (Coin.rng w)))
           (Coin.stdin w) (Coin.cursor w) (Coin.stdout w))
      /\ (Qltb (fst (np_random_rand (Coin.rng w))) q = true
          <-> (fst (np_random_rand (Coin.rng w)) < q)%Q)
      /\ ((1 <= q)%Q -> Qltb (fst (np_random_rand (Coin.rng w))) q = true)
      /\ ((q <= 0)%Q -> Qltb (fst (np_random_rand (Coin.rng w))) q = false)
  | PList _ =>
      Coin.toss self w
      = (Raise TypeError,
         Coin.mkWorld (Coin.heap w) (snd (np_random_rand (Coin.rng w)))
           (Coin.stdin w) (Coin.cursor w) (Coin.stdout w))
  end.
Proof.
  intros E. destruct (Coin.p c) as [l|q] eqn:Hp.
  - unfold Coin.toss, Coin.bind, Coin.rand, Coin.deref.
    destruct (np_random_rand _). simpl. now rewrite E, Hp.
  - destruct (rand_range (Coin.rng w)) as [H0 H1].
    split_and!.
    + exact (toss_run w self c q E Hp).
    + unfold Qltb. apply Qgtb_true.
    + intros Hq. apply Qgtb_true. eapply Qlt_le_trans; eassumption.
    + intros Hq. apply Qgtb_false. eapply Qle_trans; eassumption.
Qed.

Lemma toss_outcome_witness :
  Coin.toss 1 (quarters_pool [3 # 2; -1 # 4]%Q (fun _ => "y"%string))
  = (Ok (Qltb (fst (np_random_rand (RandomSource := Quarters) 0%nat)) (3 # 2)),
     Coin.mkWorld (Coin.heap (quarters_pool [3 # 2; -1 # 4]%Q (fun _ => "y"%string)))
       (snd (np_random_rand (RandomSource := Quarters) 0%nat))
       (fun _ => "y"%string) 0 [])
  /\ (Qltb (fst (np_random_rand (RandomSource := Quarters) 0%nat)) (3 # 2) = true
      <-> (fst (np_random_rand (RandomSource := Quarters) 0%nat) < 3 # 2)%Q)
  /\ ((1 <= 3 # 2)%Q
      -> Qltb (fst (np_random_rand (RandomSource := Quarters) 0%nat)) (3 # 2) = true)
  /\ ((3 # 2 <= 0)%Q
      -> Qltb (fst (np_random_rand (RandomSource := Quarters) 0%nat)) (3 # 2) = false).
Proof.
  exact (@toss_outcome Quarters Quarters_uniform
           (quarters_pool [3 # 2; -1 # 4]%Q (fun _ => "y"%string)) 1
           (fresh_coin (3 # 2)) eq_refl).
Defined.

(** Outside the positive numbers [np.random.beta] refuses to draw: [sample]
    raises [ValueError] and the world, the generator included, is as it
    was. *)
Lemma sample_value_error {RS : RandomSource}
    (w : Coin.World RS) (self : addr) (c : Coin.t) :
  Coin.heap w !! self = Some c ->
  (Coin.alpha c <= 0)%Z \/ (Coin.beta c <= 0)%Z ->
  Coin.sample self w = (Raise ValueError, w).
Proof.
  intros E Hc. unfold Coin.sample.
  rewrite (bind_ok _ _ _ _ _ (deref_ok _ _ _ E)). unfold Coin.beta_variate.
  replace ((0 <? Coin.alpha c)%Z && (0 <? Coin.beta c)%Z) with false;
    [reflexivity|].
  symmetry. apply andb_false_iff. rewrite !Z.ltb_ge. exact Hc.
Qed.

(** X3. [update] checks nothing.  For an integer [x] other than 0 it adds
    [x] to [alpha], whatever the sign of [x], and leaves [beta]; for
    [x = 0] it adds exactly one to [beta] and leaves [alpha]; no other
    object and nothing else in the world changes.  When the sum leaves
    [alpha] at 0 or below, with both parameters still within the range of
    a double, the next [sample] of that coin raises [ValueError] and draws
    nothing. *)
Theorem update_adds_its_argument {RS : RandomSource}
    (w : Coin.World RS) (self : addr) (c : Coin.t) (x : Z) :
  Coin.heap w !! self = Some c ->
  exists w' : Coin.World RS,
    Coin.update self x w = (Ok tt, w')
    /\ Coin.heap w' !! self
       = Some (if (x =? 0)%Z
               then Coin.mk (Coin.p c) (Coin.alpha c) (Coin.beta c + 1)
               else Coin.mk (Coin.p c) (Coin.alpha c + x) (Coin.beta c))
    /\ (forall a, a <> self -> Coin.heap w' !! a = Coin.heap w !! a)
    /\ Coin.rng w' = Coin.rng w
    /\ Coin.stdin w' = Coin.stdin w
    /\ Coin.cursor w' = Coin.cursor w
    /\ Coin.stdout w' = Coin.stdout w
    /\ (x <> 0%Z -> (Coin.alpha c + x <= 0)%Z ->
        fits_double (Coin.alpha c + x) -> fits_double (Coin.beta c) ->
        Coin.sample self w' = (Raise ValueError, w')).
Proof.
  intros E. pose proof (lookup_lt_Some _ _ _ E) as Hlt.
  unfold Coin.update. rewrite (bind_ok _ _ _ _ _ (deref_ok _ _ _ E)).
  destruct (Z.eqb_spec x 0) as [->|Hx]; cbn [negb].
  - eexists. split; [reflexivity|].
    cbn [Coin.heap Coin.rng Coin.stdin Coin.cursor Coin.stdout].
    split_and!; auto.
    + now rewrite list_lookup_insert_eq.
    + intros a Ha. apply list_lookup_insert_ne. congruence.
    + congruence.
  - eexists. split; [reflexivity|].
    cbn [Coin.heap Coin.rng Coin.stdin Coin.cursor Coin.stdout].
    split_and!; auto.
    + now rewrite list_lookup_insert_eq.
    + intros a Ha. apply list_lookup_insert_ne. congruence.
    + intros _ Hle _ _.
      match goal with
      | |- Coin.sample self ?w1 = _ =>
          apply (sample_value_error w1 self
                   (Coin.mk (Coin.p c) (Coin.alpha c + x) (Coin.beta c))
                   ltac:(cbn [Coin.heap]; now rewrite list_lookup_insert_eq))
      end.
      left. exact Hle.
Qed.

Lemma update_adds_its_argument_witness :
  exists w' : Coin.World Quarters,
    Coin.update 1 (-1) (quarters_pool [1 # 2]%Q (fun _ => "y"%string)) = (Ok tt, w')
    /\ Coin.heap w' !! 1
       = Some (if (-1 =? 0)%Z
               then Coin.mk (PNum (1 # 2)) 1 (1 + 1)
               else Coin.mk (PNum (1 # 2)) (1 + -1) 1)
    /\ (forall a, a <> 1 ->
        Coin.heap w' !! a
        = Coin.heap (quarters_pool [1 # 2]%Q (fun _ => "y"%string)) !! a)
    /\ Coin.rng w' = Coin.rng (quarters_pool [1 # 2]%Q (fun _ => "y"%string))
    /\ Coin.stdin w' = Coin.stdin (quarters_pool [1 # 2]%Q (fun _ => "y"%string))
    /\ Coin.cursor w' = Coin.cursor (quarters_pool [1 # 2]%Q (fun _ => "y"%string))
    /\ Coin.stdout w' = Coin.stdout (quarters_pool [1 # 2]%Q (fun _ => "y"%string))
    /\ ((-1)%Z <> 0%Z -> (1 + -1 <= 0)%Z ->
        fits_double (1 + -1) -> fits_double 1 ->
        Coin.sample 1 w' = (Raise ValueError, w')).
Proof.
  exact (@update_adds_its_argument Quarters
           (quarters_pool [1 # 2]%Q (fun _ => "y"%string)) 1
           (fresh_coin (1 # 2)) (-1) eq_refl).
Defined.

(** ** Plotting *)

Lemma curves_lookup (h : list Coin.t) (cs : list addr) :
  Forall (fun a => is_Some (h !! a)) cs ->
  length (curves h cs) = length cs
  /\ forall j a c, cs !! j = Some a -> h !! a = Some c ->
       curves h cs !! j = Some (Coin.p c, Coin.alpha c, Coin.beta c).
Proof.
  unfold curves, arms, omap.
  induction 1 as [|b cs [cb Eb] _ [IHl IHj]]; cbn [list_omap].
  - split; [reflexivity|]. intros j a c Hj. now rewrite lookup_nil in Hj.
  - rewrite Eb. cbn [map length]. split; [now rewrite IHl|].
    intros [|j] a c; cbn.
    + intros [= <-] Ec. congruence.
    + apply IHj.
Qed.

(** X4. [plot] shows one curve per coin it is given, in their order, each
    with the [p], [alpha] and [beta] the coin has at that moment, under the
    trial number it is given; it reads the coins without changing them,
    draws nothing and asks nothing, and does not look at the object it is
    called on. *)
Theorem plot_shows_posteriors {RS : RandomSource}
    (w : Coin.World RS) (self : addr) (cs : list addr) (n : Z) :
  Forall (fun a => is_Some (Coin.heap w !! a)) cs ->
  Coin.plot self cs n w
  = (Ok tt,
     Coin.mkWorld (Coin.heap w) (Coin.rng w) (Coin.stdin w) (Coin.cursor w)
       (Coin.stdout w ++ [Plot (curves (Coin.heap w) cs) n]))
  /\ length (curves (Coin.heap w) cs) = length cs
  /\ (forall j a c, cs !! j = Some a -> Coin.heap w !! a = Some c ->
        curves (Coin.heap w) cs !! j = Some (Coin.p c, Coin.alpha c, Coin.beta c))
  /\ (forall other : addr, Coin.plot other cs n w = Coin.plot self cs n w).
Proof.
  intros Hcs. destruct (curves_lookup _ _ Hcs) as [Hlen Hj].
  split_and!; auto.
  unfold Coin.plot. now rewrite (bind_ok _ _ _ _ _ (plot_curves_exact cs w Hcs)).
Qed.

Lemma plot_shows_posteriors_witness :
  Coin.plot 0 (seq 1 2) 5 (quarters_pool [1 # 5; 3 # 4]%Q (fun _ => "y"%string))
  = (Ok tt,
     Coin.mkWorld (Coin.heap (quarters_pool [1 # 5; 3 # 4]%Q (fun _ => "y"%string)))
       (Coin.rng (quarters_pool [1 # 5; 3 # 4]%Q (fun _ => "y"%string)))
       (Coin.stdin (quarters_pool [1 # 5; 3 # 4]%Q (fun _ => "y"%string)))
       (Coin.cursor (quarters_pool [1 # 5; 3 # 4]%Q (fun _ => "y"%string)))
       (Coin.stdout (quarters_pool [1 # 5; 3 # 4]%Q (fun _ => "y"%string))
        ++ [Plot (curves (Coin.heap (quarters_pool [1 # 5; 3 # 4]%Q
                                       (fun _ => "y"%string))) (seq 1 2)) 5]))
  /\ length (curves (Coin.heap (quarters_pool [1 # 5; 3 # 4]%Q (fun _ => "y"%string)))
               (seq 1 2)) = length (seq 1 2)
  /\ (forall j a c, seq 1 2 !! j = Some a ->
        Coin.heap (quarters_pool [1 # 5; 3 # 4]%Q (fun _ => "y"%string)) !! a = Some c ->
        curves (Coin.heap (quarters_pool [1 # 5; 3 # 4]%Q (fun _ => "y"%string)))
          (seq 1 2) !! j = Some (Coin.p c, Coin.alpha c, Coin.beta c))
  /\ (forall other : addr,
        Coin.plot other (seq 1 2) 5 (quarters_pool [1 # 5; 3 # 4]%Q (fun _ => "y"%string))
        = Coin.plot 0 (seq 1 2) 5 (quarters_pool [1 # 5; 3 # 4]%Q (fun _ => "y"%string))).
Proof.
  apply (@plot_shows_posteriors Quarters).
  exact (arms_present _ _ (quarters_pool_arms [1 # 5; 3 # 4]%Q _)).
Defined.

(** ** One trial, seen from outside *)

(** X5. A trial over a pool that is not empty changes exactly one object:
    the coin it has picked, which it has tossed once; it adds one to that
    coin's [alpha] or to its [beta] after the outcome, so the coin's
    [alpha + beta] grows by exactly one, and keeps its [p].  Every other
    object, the heap's size and the pool are as before, and the trial is
    recorded once. *)
Theorem trial_updates_one_coin {RS : RandomSource} {RL : RandomSourceLaws RS}
    (w : Coin.World RS) (self : addr) (i : Z) (loc : Coin.Locals) :
  Forall (arm_at (Coin.heap w)) (Coin.coins loc) -> Coin.coins loc <> [] ->
  exists (a : addr) (c : Coin.t) (x stop : bool) (w' : Coin.World RS),
    Coin.trial self i loc w
    = (Ok (Coin.mkLocals (Coin.coins loc) (Some a) (Coin.trace loc ++ [(a, x)]),
           stop), w')
    /\ a ∈ Coin.coins loc
    /\ Coin.heap w !! a = Some c
    /\ Coin.heap w' !! a = Some (observe c x)
    /\ (Coin.alpha (observe c x) + Coin.beta (observe c x)
        = Coin.alpha c + Coin.beta c + 1)%Z
    /\ Coin.p (observe c x) = Coin.p c
    /\ (forall b, b <> a -> Coin.heap w' !! b = Coin.heap w !! b)
    /\ length (Coin.heap w') = length (Coin.heap w).
Proof.
  intros Harms Hne.
  destruct (trial_effects self i loc w Harms Hne)
    as (a & c & q & x & w' & Et & Ha & Ec & _ & _ & Eh & _).
  exists a, c, x. eexists. exists w'. split; [exact Et|].
  rewrite Eh. split_and!; auto.
  - apply list_lookup_insert_eq. eapply lookup_lt_Some; eassumption.
  - destruct x; simpl; lia.
  - now destruct x.
  - intros b Hb. apply list_lookup_insert_ne. congruence.
  - apply length_insert.
Qed.

Lemma trial_updates_one_coin_witness :
  exists (a : addr) (c : Coin.t) (x stop : bool) (w' : Coin.World Quarters),
    Coin.trial 0 5 (Coin.mkLocals (seq 1 2) None [])
      (quarters_pool [1 # 5; 3 # 4]%Q (fun _ => "y"%string))
    = (Ok (Coin.mkLocals (seq 1 2) (Some a) ([] ++ [(a, x)]), stop), w')
    /\ a ∈ seq 1 2
    /\ Coin.heap (quarters_pool [1 # 5; 3 # 4]%Q (fun _ => "y"%string)) !! a = Some c
    /\ Coin.heap w' !! a = Some (observe c x)
    /\ (Coin.alpha (observe c x) + Coin.beta (observe c x)
        = Coin.alpha c + Coin.beta c + 1)%Z
    /\ Coin.p (observe c x) = Coin.p c
    /\ (forall b, b <> a ->
        Coin.heap w' !! b
        = Coin.heap (quarters_pool [1 # 5; 3 # 4]%Q (fun _ => "y"%string)) !! b)
    /\ length (Coin.heap w')
       = length (Coin.heap (quarters_pool [1 # 5; 3 # 4]%Q (fun _ => "y"%string))).
Proof.
  apply (@trial_updates_one_coin Quarters Quarters_laws
           (quarters_pool [1 # 5; 3 # 4]%Q (fun _ => "y"%string)) 0 5
           (Coin.mkLocals (seq 1 2) None [])).
  - exact (quarters_pool_arms [1 # 5; 3 # 4]%Q _).
  - discriminate.
Defined.

(** X6. A trial whose index is not one of 5, 10, 20, 50, 100, 200, 500,
    1000, 2000, 5000, 9999 prints nothing and reads nothing.  A trial
    whose index is one of them prints the samples it has drawn, then the
    plot of the pool as it is after the update of this trial, then the
    prompt, reads one line, and clears the output unless that line is the
    letter n, in which case it leaves the loop. *)
Theorem trial_prints_after_update {RS : RandomSource} {RL : RandomSourceLaws RS}
    (w : Coin.World RS) (self : addr) (i : Z) (loc : Coin.Locals) :
  Forall (arm_at (Coin.heap w)) (Coin.coins loc) -> Coin.coins loc <> [] ->
  exists (loc' : Coin.Locals) (stop : bool) (w' : Coin.World RS),
    Coin.trial self i loc w = (Ok (loc', stop), w')
    /\ (is_plot_trial i = false ->
        stop = false /\ Coin.stdout w' = Coin.stdout w
        /\ Coin.cursor w' = Coin.cursor w)
    /\ (is_plot_trial i = true ->
        stop = String.eqb (Coin.stdin w (Coin.cursor w)) "n"
        /\ Coin.cursor w' = S (Coin.cursor w)
        /\ Coin.stdout w'
           = Coin.stdout w
             ++ [PrintSamples
                   (fst (one_sample_per_arm
                           (map (posterior_at (Coin.heap w)) (Coin.coins loc))
                           (Coin.rng w)));
                 Plot (curves (Coin.heap w') (Coin.coins loc)) i;
                 Prompt "Continue?"]
             ++ (if stop then [] else [ClearOutput])).
Proof.
  intros Harms Hne.
  destruct (trial_effects self i loc w Harms Hne)
    as (a & c & q & x & w' & Et & _ & _ & _ & _ & _ & _ & _ & Ecur & Eout).
  eexists. eexists. exists w'. split; [exact Et|].
  split; intros Ep; rewrite Ep in *; cbn [andb].
  - rewrite app_nil_r in Eout. auto.
  - auto.
Qed.

Lemma trial_prints_after_update_witness :
  exists (loc' : Coin.Locals) (stop : bool) (w' : Coin.World Quarters),
    Coin.trial 0 5 (Coin.mkLocals (seq 1 2) None [])
      (quarters_pool [1 # 5; 3 # 4]%Q (fun _ => "y"%string))
    = (Ok (loc', stop), w')
    /\ (is_plot_trial 5 = false ->
        stop = false
        /\ Coin.stdout w'
           = Coin.stdout (quarters_pool [1 # 5; 3 # 4]%Q (fun _ => "y"%string))
        /\ Coin.cursor w'
           = Coin.cursor (quarters_pool [1 # 5; 3 # 4]%Q (fun _ => "y"%string)))
    /\ (is_plot_trial 5 = true ->
        stop = String.eqb "y" "n"
        /\ Coin.cursor w' = 1
        /\ Coin.stdout w'
           = Coin.stdout (quarters_pool [1 # 5; 3 # 4]%Q (fun _ => "y"%string))
             ++ [PrintSamples
                   (fst (one_sample_per_arm
                           (map (posterior_at
                                   (Coin.heap (quarters_pool [1 # 5; 3 # 4]%Q
                                                 (fun _ => "y"%string))))
                                (seq 1 2))
                           (Coin.rng (quarters_pool [1 # 5; 3 # 4]%Q
                                        (fun _ => "y"%string)))));
                 Plot (curves (Coin.heap w') (seq 1 2)) 5;
                 Prompt "Continue?"]
             ++ (if stop then [] else [ClearOutput])).
Proof.
  apply (@trial_prints_after_update Quarters Quarters_laws
           (quarters_pool [1 # 5; 3 # 4]%Q (fun _ => "y"%string)) 0 5
           (Coin.mkLocals (seq 1 2) None [])).
  - exact (quarters_pool_arms [1 # 5; 3 # 4]%Q _).
  - discriminate.
Defined.

(** The printed plot holds the coin as updated: on the quarters source the
    second coin draws the greater sample, its toss succeeds, and the plot
    of trial 5 shows it with [alpha = 2]. *)
Example plot_after_update :
  Coin.stdout (snd (Coin.trial 0 5 (Coin.mkLocals (seq 1 2) None [])
                      (quarters_pool [1 # 5; 3 # 4]%Q (fun _ => "y"%string))))
  = [PrintSamples [0 # 4; 1 # 4]%Q;
     Plot [(PNum (1 # 5), 1%Z, 1%Z); (PNum (3 # 4), 2%Z, 1%Z)] 5;
     Prompt "Continue?"; ClearOutput].
Proof. reflexivity. Qed.

(** ** Whole runs, seen from outside *)

Lemma arms_p_insert (h : list Coin.t) (cs : list addr) a c (x : bool) :
  h !! a = Some c ->
  map Coin.p (arms (<[a := observe c x]> h) cs) = map Coin.p (arms h cs).
Proof.
  intros Ec. pose proof (lookup_lt_Some _ _ _ Ec) as Hlt.
  unfold arms, omap. induction cs as [|b cs IH]; [reflexivity|].
  cbn [list_omap]. destruct (decide (b = a)) as [->|Hne].
  - rewrite list_lookup_insert_eq by exact Hlt. rewrite Ec. cbn [map].
    rewrite IH. now destruct x.
  - rewrite list_lookup_insert_ne by congruence.
    destruct (h !! b); cbn [map]; now rewrite IH.
Qed.

Section RunsOutside.
Context {RS : RandomSource} {RL : RandomSourceLaws RS}.
Implicit Types (w : Coin.World RS) (a self : addr) (loc : Coin.Locals).

(** A stretch of the loop without a trial that plots prints nothing and
    reads nothing. *)
Lemma for_range_quiet (k : nat) : forall self (i : Z) loc w,
  Inv (Coin.heap w) loc -> Coin.coins loc <> [] ->
  (forall j, (i <= j < i + Z.of_nat k)%Z -> is_plot_trial j = false) ->
  exists loc' w',
    Coin.for_range k self i loc w = (Ok loc', w')
    /\ length (Coin.trace loc') = length (Coin.trace loc) + k
    /\ Coin.stdout w' = Coin.stdout w
    /\ Coin.cursor w' = Coin.cursor w.
Proof.
  induction k as [|k IH]; intros self i loc w HI Hne Hquiet.
  - exists loc, w. simpl. split_and!; auto.
  - destruct (trial_effects self i loc w (inv_arms _ _ HI) Hne)
      as (a & c & q & x & w1 & Et & Ha & Ec & _ & _ & Eh & _ & _ & Ecur & Eout).
    assert (Ep : is_plot_trial i = false) by (apply Hquiet; lia).
    rewrite Ep in Et, Ecur, Eout. cbn [andb] in Et.
    rewrite app_nil_r in Eout.
    cbn [Coin.for_range]. rewrite (bind_ok _ _ _ _ _ Et).
    set (loc1 := Coin.mkLocals _ _ _).
    assert (HI1 : Inv (Coin.heap w1) loc1) by (rewrite Eh; now apply Inv_step).
    destruct (IH self (i + 1)%Z loc1 w1 HI1 Hne)
      as (loc' & w' & Er & Elen & Eout' & Ecur').
    { intros j Hj. apply Hquiet. lia. }
    exists loc', w'. subst loc1. cbn [Coin.trace] in Elen.
    rewrite length_app in Elen. cbn [length] in Elen.
    split_and!; auto; try lia; congruence.
Qed.

(** X7. Over a pool that is not empty, how many trials a run does and how
    many lines it reads is told by [n] and the user's answers alone, as
    [plan] computes them: neither the generator, nor the true
    probabilities, nor the outcomes of the tosses have a part in it. *)
Theorem run_follows_its_plan (w : Coin.World RS) (self : addr) (me : Coin.t)
    (l : list Q) (n : Z) :
  Coin.heap w !! self = Some me -> Coin.p me = PList l -> l <> [] ->
  exists (loc : Coin.Locals) (w' : Coin.World RS),
    Coin.simulate_loop self n w = (Ok loc, w')
    /\ length (Coin.trace loc)
       = fst (plan (Z.to_nat n) 0 (Coin.stdin w) (Coin.cursor w))
    /\ Coin.cursor w'
       = Coin.cursor w + snd (plan (Z.to_nat n) 0 (Coin.stdin w) (Coin.cursor w))
    /\ Coin.stdin w' = Coin.stdin w.
Proof.
  intros E Hp Hne.
  destruct (simulate_loop_plan self n w me l E Hp Hne)
    as (loc & w' & Er & _ & _ & Elen & Ecur & Ein & _).
  exists loc, w'. auto.
Qed.

(** X8. A run of at most five trials over a pool that is not empty does
    exactly [n] trials, asks nothing and prints nothing but the final
    line, whatever the user would have typed. *)
Theorem short_runs_ask_nothing (w : Coin.World RS) (self : addr) (me : Coin.t)
    (l : list Q) (n : Z) :
  Coin.heap w !! self = Some me -> Coin.p me = PList l -> l <> [] ->
  (n <= 5)%Z ->
  exists (loc : Coin.Locals) (w' : Coin.World RS),
    Coin.simulate_loop self n w = (Ok loc, w')
    /\ length (Coin.trace loc) = Z.to_nat n
    /\ Coin.cursor w' = Coin.cursor w
    /\ Coin.stdout w' = Coin.stdout w
    /\ Coin.simulate self n w
       = (Ok tt, Coin.mkWorld (Coin.heap w') (Coin.rng w') (Coin.stdin w')
                   (Coin.cursor w)
                   (Coin.stdout w ++ [PrintLine "Simulation completed!"])).
Proof.
  intros E Hp Hne Hn. rewrite (simulate_loop_unfold self n w me l E Hp).
  set (w0 := Coin.mkWorld _ _ _ _ _). set (loc0 := Coin.mkLocals _ _ _).
  destruct (for_range_quiet (Z.to_nat n) self 0 loc0 w0)
    as (loc & w' & Er & Elen & Eout & Ecur).
  { apply Inv_fresh. }
  { subst loc0. cbn [Coin.coins]. destruct l; [congruence|discriminate]. }
  { intros j Hj. apply is_plot_trial_before_5. lia. }
  exists loc, w'. subst loc0 w0.
  cbn [Coin.trace Coin.stdout Coin.cursor length] in *.
  split_and!; auto.
  assert (Es : Coin.simulate_loop self n w = (Ok loc, w')).
  { now rewrite (simulate_loop_unfold self n w me l E Hp). }
  rewrite (simulate_of_loop self n w loc w' Es). now rewrite Eout, Ecur.
Qed.

(** X9. A run of six trials or more whose user answers the first prompt
    with the letter n does exactly six trials and reads exactly one line,
    however many trials were asked for. *)
Theorem first_answer_n_gives_six_trials (w : Coin.World RS) (self : addr)
    (me : Coin.t) (l : list Q) (n : Z) :
  Coin.heap w !! self = Some me -> Coin.p me = PList l -> l <> [] ->
  (6 <= n)%Z -> Coin.stdin w (Coin.cursor w) = "n"%string ->
  exists (loc : Coin.Locals) (w' : Coin.World RS),
    Coin.simulate_loop self n w = (Ok loc, w')
    /\ length (Coin.trace loc) = 6
    /\ Coin.cursor w' = S (Coin.cursor w).
Proof.
  intros E Hp Hne Hn Ekey.
  destruct (simulate_loop_plan self n w me l E Hp Hne)
    as (loc & w' & Er & _ & _ & Elen & Ecur & _).
  assert (Hk : 6 <= Z.to_nat n) by lia.
  rewrite (plan_stop_at_first_prompt (Z.to_nat n) _ _ Hk Ekey) in Elen, Ecur.
  exists loc, w'. cbn [fst snd] in *. split_and!; auto. lia.
Qed.


End RunsOutside.

Lemma run_follows_its_plan_witness :
  exists (loc : Coin.Locals) (w' : Coin.World Quarters),
    Coin.simulate_loop 0 12 (quarters_notebook [1 # 5; 3 # 4]%Q (fun _ => "y"%string))
    = (Ok loc, w')
    /\ length (Coin.trace loc)
       = fst (plan (Z.to_nat 12) 0
                (Coin.stdin (quarters_notebook [1 # 5; 3 # 4]%Q (fun _ => "y"%string)))
                (Coin.cursor (quarters_notebook [1 # 5; 3 # 4]%Q (fun _ => "y"%string))))
    /\ Coin.cursor w'
       = Coin.cursor (quarters_notebook [1 # 5; 3 # 4]%Q (fun _ => "y"%string))
         + snd (plan (Z.to_nat 12) 0
                  (Coin.stdin (quarters_notebook [1 # 5; 3 # 4]%Q (fun _ => "y"%string)))
                  (Coin.cursor (quarters_notebook [1 # 5; 3 # 4]%Q (fun _ => "y"%string))))
    /\ Coin.stdin w'
       = Coin.stdin (quarters_notebook [1 # 5; 3 # 4]%Q (fun _ => "y"%string)).
Proof.
  apply (@run_follows_its_plan Quarters Quarters_laws _ 0
           (Coin.mk (PList [1 # 5; 3 # 4]%Q) 1 1) [1 # 5; 3 # 4]%Q 12).
  - reflexivity.
  - reflexivity.
  - discriminate.
Defined.

Lemma short_runs_ask_nothing_witness :
  exists (loc : Coin.Locals) (w' : Coin.World Quarters),
    Coin.simulate_loop 0 4 (quarters_notebook [1 # 5; 3 # 4]%Q (fun _ => "n"%string))
    = (Ok loc, w')
    /\ length (Coin.trace loc) = Z.to_nat 4
    /\ Coin.cursor w'
       = Coin.cursor (quarters_notebook [1 # 5; 3 # 4]%Q (fun _ => "n"%string))
    /\ Coin.stdout w'
       = Coin.stdout (quarters_notebook [1 # 5; 3 # 4]%Q (fun _ => "n"%string))
    /\ Coin.simulate 0 4 (quarters_notebook [1 # 5; 3 # 4]%Q (fun _ => "n"%string))
       = (Ok tt,
          Coin.mkWorld (Coin.heap w') (Coin.rng w') (Coin.stdin w')
            (Coin.cursor (quarters_notebook [1 # 5; 3 # 4]%Q (fun _ => "n"%string)))
            (Coin.stdout (quarters_notebook [1 # 5; 3 # 4]%Q (fun _ => "n"%string))
             ++ [PrintLine "Simulation completed!"])).
Proof.
  apply (@short_runs_ask_nothing Quarters Quarters_laws _ 0
           (Coin.mk (PList [1 # 5; 3 # 4]%Q) 1 1) [1 # 5; 3 # 4]%Q 4).
  - reflexivity.
  - reflexivity.
  - discriminate.
  - lia.
Defined.

Lemma first_answer_n_gives_six_trials_witness :
  exists (loc : Coin.Locals) (w' : Coin.World Quarters),
    Coin.simulate_loop 0 10000
      (quarters_notebook [1 # 5; 1 # 2; 3 # 4]%Q (fun _ => "n"%string))
    = (Ok loc, w')
    /\ length (Coin.trace loc) = 6
    /\ Coin.cursor w'
       = S (Coin.cursor (quarters_notebook [1 # 5; 1 # 2; 3 # 4]%Q
                           (fun _ => "n"%string))).
Proof.
  apply (@first_answer_n_gives_six_trials Quarters Quarters_laws _ 0
           (Coin.mk (PList [1 # 5; 1 # 2; 3 # 4]%Q) 1 1) [1 # 5; 1 # 2; 3 # 4]%Q
           10000).
  - reflexivity.
  - reflexivity.
  - discriminate.
  - lia.
  - reflexivity.
Defined.


(** The notebook's own run, ten thousand trials, plots at every listed
    index: eleven prompts. *)
Example notebook_run_prompts : listed_between 0 (Z.max 0 10000) = 11.
Proof. reflexivity. Qed.

(** X11. A run leaves every object that existed before it as it was and
    adds exactly one coin per true probability; when it ends, the coins of
    the pool still hold the true probabilities of the list, in the order of
    the list: no trial changes a [p]. *)
Theorem run_keeps_objects_and_probabilities {RS : RandomSource}
    {RL : RandomSourceLaws RS} (w : Coin.World RS) (self : addr) (me : Coin.t)
    (l : list Q) (n : Z) :
  Coin.heap w !! self = Some me -> Coin.p me = PList l ->
  l <> [] \/ (n <= 0)%Z ->
  exists (loc : Coin.Locals) (w' : Coin.World RS),
    Coin.simulate_loop self n w = (Ok loc, w')
    /\ length (Coin.heap w') = length (Coin.heap w) + length l
    /\ (forall a, a < length (Coin.heap w) ->
          Coin.heap w' !! a = Coin.heap w !! a)
    /\ Coin.coins loc = seq (length (Coin.heap w)) (length l)
    /\ map Coin.p (arms (Coin.heap w') (Coin.coins loc)) = map PNum l.
Proof.
  intros E Hp Hcase.
  assert (H0 : length (Coin.heap w ++ map fresh_coin l)
               = length (Coin.heap w) + length l
               /\ map Coin.p (arms (Coin.heap w ++ map fresh_coin l)
                                (seq (length (Coin.heap w)) (length l)))
                  = map PNum l).
  { rewrite length_app, length_map, arms_fresh. split; [reflexivity|].
    rewrite map_map. reflexivity. }
  destruct (decide (l = [])) as [->|Hne].
  - destruct Hcase as [Hcase|Hn]; [congruence|].
    rewrite (simulate_loop_unfold self n w me [] E Hp).
    replace (Z.to_nat n) with 0 by lia. cbn [Coin.for_range].
    eexists. eexists. split; [reflexivity|].
    cbn [Coin.heap Coin.coins]. destruct H0 as [H0 H1].
    split_and!; auto. intros a Ha. now apply lookup_app_l.
  - destruct (simulate_loop_plan self n w me l E Hp Hne)
      as (loc & w' & Er & _ & Ecs & _ & _ & _ & Hstab).
    exists loc, w'. split; [exact Er|]. rewrite Ecs.
    specialize (Hstab (fun h =>
      length h = length (Coin.heap w) + length l
      /\ (forall a, a < length (Coin.heap w) -> h !! a = Coin.heap w !! a)
      /\ map Coin.p (arms h (seq (length (Coin.heap w)) (length l)))
         = map PNum l)).
    cbv beta in Hstab. destruct Hstab as (H1 & H2 & H3).
    + intros h a c x (Hl & Hold & Hps) Ha Ec. split_and!.
      * now rewrite length_insert.
      * intros b Hb. rewrite list_lookup_insert_ne; [now apply Hold|].
        apply elem_of_seq in Ha. lia.
      * now rewrite arms_p_insert.
    + destruct H0 as [H0 H1]. split_and!; auto.
      intros a Ha. now apply lookup_app_l.
    + auto.
Qed.

Lemma run_keeps_objects_and_probabilities_witness :
  exists (loc : Coin.Locals) (w' : Coin.World Quarters),
    Coin.simulate_loop 0 12 (quarters_notebook [1 # 5; 3 # 4]%Q (fun _ => "y"%string))
    = (Ok loc, w')
    /\ length (Coin.heap w')
       = length (Coin.heap (quarters_notebook [1 # 5; 3 # 4]%Q (fun _ => "y"%string)))
         + length [1 # 5; 3 # 4]%Q
    /\ (forall a,
          a < length (Coin.heap (quarters_notebook [1 # 5; 3 # 4]%Q
                                   (fun _ => "y"%string))) ->
          Coin.heap w' !! a
          = Coin.heap (quarters_notebook [1 # 5; 3 # 4]%Q (fun _ => "y"%string)) !! a)
    /\ Coin.coins loc
       = seq (length (Coin.heap (quarters_notebook [1 # 5; 3 # 4]%Q
                                   (fun _ => "y"%string))))
             (length [1 # 5; 3 # 4]%Q)
    /\ map Coin.p (arms (Coin.heap w') (Coin.coins loc)) = map PNum [1 # 5; 3 # 4]%Q.
Proof.
  apply (@run_keeps_objects_and_probabilities Quarters Quarters_laws _ 0
           (Coin.mk (PList [1 # 5; 3 # 4]%Q) 1 1) [1 # 5; 3 # 4]%Q 12).
  - reflexivity.
  - reflexivity.
  - left. discriminate.
Defined.

(** X12. The choice of the coin to toss does not look at the true
    probabilities: over two heaps whose coins have the same [alpha] and
    [beta], from the same generator state, the inner loop draws the same
    samples, picks the coin at the same address and leaves the generator
    in the same state, whatever the coins' [p]. *)
Theorem selection_ignores_true_probability {RS : RandomSource}
    (w1 w2 : Coin.World RS) (cs : list addr) (m : Q) (ss : list Q)
    (mc : option addr) :
  Forall (arm_at (Coin.heap w1)) cs ->
  Forall (arm_at (Coin.heap w2)) cs ->
  map (posterior_at (Coin.heap w1)) cs = map (posterior_at (Coin.heap w2)) cs ->
  Coin.rng w1 = Coin.rng w2 ->
  fst (Coin.sample_all cs m ss mc w1) = fst (Coin.sample_all cs m ss mc w2)
  /\ Coin.rng (snd (Coin.sample_all cs m ss mc w1))
     = Coin.rng (snd (Coin.sample_all cs m ss mc w2)).
Proof.
  intros H1 H2 Epost Erng.
  rewrite (sample_all_run cs w1 m ss mc H1), (sample_all_run cs w2 m ss mc H2).
  cbn [fst snd Coin.rng]. now rewrite Epost, Erng.
Qed.

Lemma selection_ignores_true_probability_witness :
  fst (Coin.sample_all (seq 1 2) (-1) [] None
         (quarters_pool [1 # 5; 3 # 4]%Q (fun _ => "y"%string)))
  = fst (Coin.sample_all (seq 1 2) (-1) [] None
           (quarters_pool [9 # 10; 0]%Q (fun _ => "n"%string)))
  /\ Coin.rng (snd (Coin.sample_all (seq 1 2) (-1) [] None
                      (quarters_pool [1 # 5; 3 # 4]%Q (fun _ => "y"%string))))
     = Coin.rng (snd (Coin.sample_all (seq 1 2) (-1) [] None
                        (quarters_pool [9 # 10; 0]%Q (fun _ => "n"%string)))).
Proof.
  apply selection_ignores_true_probability.
  - exact (quarters_pool_arms [1 # 5; 3 # 4]%Q _).
  - exact (quarters_pool_arms [9 # 10; 0]%Q _).
  - reflexivity.
  - reflexivity.
Defined.



(** X14. What [simulate] can end in.  Called on a coin, whose [p] is a
    number, it raises [TypeError] and has done nothing.  Called on an
    experiment with the empty list, it raises [UnboundLocalError] and has
    done nothing when [n >= 1], and only prints its final line when
    [n <= 0].  Called on an experiment with a list that is not empty, it
    ends normally, for every [n]: no other exception leaves it. *)
Theorem simulate_outcomes {RS : RandomSource} {RL : RandomSourceLaws RS}
    (w : Coin.World RS) (self : addr) (me : Coin.t) (n : Z) :
  Coin.heap w !! self = Some me ->
  match Coin.p me with
  | PNum _ => Coin.simulate self n w = (Raise TypeError, w)
  | PList [] =>
      if (1 <=? n)%Z
      then Coin.simulate self n w = (Raise UnboundLocalError, w)
      else Coin.simulate self n w
           = (Ok tt,
              Coin.mkWorld (Coin.heap w) (Coin.rng w) (Coin.stdin w)
                (Coin.cursor w)
                (Coin.stdout w ++ [PrintLine "Simulation completed!"]))
  | PList (_ :: _) => exists w' : Coin.World RS, Coin.simulate self n w = (Ok tt, w')
  end.
Proof.
  intros E. destruct (Coin.p me) as [[|q l]|q] eqn:Hp.
  - destruct (Z.leb_spec 1 n) as [Hn|Hn].
    + assert (Er : Coin.simulate_loop self n w = (Raise UnboundLocalError, w)).
      { rewrite (simulate_loop_unfold self n w me [] E Hp).
        destruct (Z.to_nat n) as [|k] eqn:Ek; [lia|].
        destruct w as [h g keys cur out]. cbn. now rewrite app_nil_r. }
      unfold Coin.simulate. now rewrite (bind_raise _ _ _ _ _ Er).
    + assert (Er := simulate_loop_unfold self n w me [] E Hp).
      replace (Z.to_nat n) with 0 in Er by lia.
      cbn [Coin.for_range map length seq] in Er. unfold Coin.ret in Er.
      rewrite (simulate_of_loop self n w _ _ Er).
      cbn [Coin.heap Coin.rng Coin.stdin Coin.cursor Coin.stdout].
      now rewrite app_nil_r.
  - assert (Hne : q :: l <> [] \/ (n <= 0)%Z) by (left; discriminate).
    destruct (simulate_loop_run self n w me (q :: l) E Hp Hne)
      as (loc & w' & Er & _).
    eexists. exact (simulate_of_loop self n w loc w' Er).
  - assert (Er : Coin.simulate_loop self n w = (Raise TypeError, w)).
    { unfold Coin.simulate_loop.
      now rewrite (bind_ok _ _ _ _ _ (deref_ok _ _ _ E)), Hp. }
    unfold Coin.simulate. now rewrite (bind_raise _ _ _ _ _ Er).
Qed.

Lemma simulate_outcomes_witness :
  Coin.simulate 1 3 (quarters_pool [1 # 5; 3 # 4]%Q (fun _ => "y"%string))
  = (Raise TypeError, quarters_pool [1 # 5; 3 # 4]%Q (fun _ => "y"%string)).
Proof.
  exact (@simulate_outcomes Quarters Quarters_laws
           (quarters_pool [1 # 5; 3 # 4]%Q (fun _ => "y"%string)) 1
           (fresh_coin (1 # 5)) 3 eq_refl).
Defined.

(** X15. The draws of a trial come in a fixed order: one Beta variate per
    coin, in the order of the pool, and only then the uniform draw of the
    toss.  The outcome recorded is whether that uniform draw is below the
    [p] of the coin picked, and the generator is left in the state after
    it. *)
Theorem trial_draw_order {RS : RandomSource} {RL : RandomSourceLaws RS}
    (w : Coin.World RS) (self : addr) (i : Z) (loc : Coin.Locals) :
  Forall (arm_at (Coin.heap w)) (Coin.coins loc) -> Coin.coins loc <> [] ->
  exists (a : addr) (c : Coin.t) (q : Q) (stop : bool) (w' : Coin.World RS),
    Coin.trial self i loc w
    = (Ok (Coin.mkLocals (Coin.coins loc) (Some a)
             (Coin.trace loc
              ++ [(a, Qltb (fst (np_random_rand
                                   (snd (one_sample_per_arm
                                           (map (posterior_at (Coin.heap w))
                                                (Coin.coins loc))
                                           (Coin.rng w))))) q)]),
           stop), w')
    /\ Coin.heap w !! a = Some c
    /\ Coin.p c = PNum q
    /\ Coin.rng w'
       = snd (np_random_rand
                (snd (one_sample_per_arm
                        (map (posterior_at (Coin.heap w)) (Coin.coins loc))
                        (Coin.rng w)))).
Proof.
  intros Harms Hne.
  destruct (trial_effects self i loc w Harms Hne)
    as (a & c & q & x & w' & Et & _ & Ec & Hq & Ex & _ & Eg & _).
  subst x. exists a, c, q. eexists. exists w'.
  split_and!; [exact Et|exact Ec|exact Hq|exact Eg].
Qed.

Lemma trial_draw_order_witness :
  exists (a : addr) (c : Coin.t) (q : Q) (stop : bool) (w' : Coin.World Quarters),
    Coin.trial 0 5 (Coin.mkLocals (seq 1 2) None [])
      (quarters_pool [1 # 5; 3 # 4]%Q (fun _ => "y"%string))
    = (Ok (Coin.mkLocals (seq 1 2) (Some a)
             ([] ++ [(a, Qltb (fst (np_random_rand
                                      (snd (one_sample_per_arm
                                              (map (posterior_at
                                                      (Coin.heap (quarters_pool
                                                                    [1 # 5; 3 # 4]%Q
                                                                    (fun _ => "y"%string))))
                                                   (seq 1 2))
                                              (Coin.rng (quarters_pool [1 # 5; 3 # 4]%Q
                                                           (fun _ => "y"%string))))))) q)]),
           stop), w')
    /\ Coin.heap (quarters_pool [1 # 5; 3 # 4]%Q (fun _ => "y"%string)) !! a = Some c
    /\ Coin.p c = PNum q
    /\ Coin.rng w'
       = snd (np_random_rand
                (snd (one_sample_per_arm
                        (map (posterior_at
                                (Coin.heap (quarters_pool [1 # 5; 3 # 4]%Q
                                              (fun _ => "y"%string))))
                             (seq 1 2))
                        (Coin.rng (quarters_pool [1 # 5; 3 # 4]%Q
                                     (fun _ => "y"%string)))))).
Proof.
  apply (@trial_draw_order Quarters Quarters_laws
           (quarters_pool [1 # 5; 3 # 4]%Q (fun _ => "y"%string)) 0 5
           (Coin.mkLocals (seq 1 2) None [])).
  - exact (quarters_pool_arms [1 # 5; 3 # 4]%Q _).
  - discriminate.
Defined.

(** ** The count of trials *)

(** What a plan says of a loop of [k] iterations from index [i]: it does
    at most [k] trials; it reads one line after each trial done whose index
    plots and none elsewhere; it does fewer than [k] trials only when its
    last trial plots and the line read there is the letter n; and that
    letter, among the lines read, can only be the last one, read after a
    trial that plots. *)
Lemma plan_spec (k : nat) : forall (i : Z) (keys : nat -> string) (cur : nat),
  fst (plan k i keys cur) <= k
  /\ snd (plan k i keys cur)
     = listed_between i (i + Z.of_nat (fst (plan k i keys cur)))
  /\ (fst (plan k i keys cur) < k ->
      1 <= fst (plan k i keys cur)
      /\ is_plot_trial (i + Z.of_nat (fst (plan k i keys cur)) - 1) = true
      /\ 1 <= snd (plan k i keys cur)
      /\ keys (cur + snd (plan k i keys cur) - 1) = "n"%string)
  /\ (forall j, cur <= j < cur + snd (plan k i keys cur) ->
        keys j = "n"%string ->
        j = cur + snd (plan k i keys cur) - 1
        /\ 1 <= fst (plan k i keys cur)
        /\ is_plot_trial (i + Z.of_nat (fst (plan k i keys cur)) - 1) = true).
Proof.
  induction k as [|k IH]; intros i keys cur.
  - cbn [plan fst snd]. rewrite Z.add_0_r, listed_between_empty.
    split_and!; auto; intros; lia.
  - cbn [plan]. destruct (is_plot_trial i) eqn:Ep.
    + destruct (String.eqb_spec (keys cur) "n") as [En|En].
      * cbn [fst snd].
        rewrite (listed_between_step i (i + Z.of_nat 1)) by lia.
        rewrite Ep. replace (i + Z.of_nat 1)%Z with (i + 1)%Z by lia.
        rewrite listed_between_empty.
        replace (i + 1 - 1)%Z with i by lia.
        replace (cur + 1 - 1) with cur by lia.
        split_and!; auto; try lia.
        intros j Hj _. split_and!; auto; lia.
      * specialize (IH (i + 1)%Z keys (S cur)).
        destruct (plan k (i + 1) keys (S cur)) as [t r]. cbn [fst snd] in *.
        destruct IH as (Hle & Hr & Hstop & Hn).
        rewrite (listed_between_step i (i + Z.of_nat (S t))) by lia.
        rewrite Ep.
        replace (i + Z.of_nat (S t))%Z with (i + 1 + Z.of_nat t)%Z by lia.
        split_and!; try lia.
        -- intros Hlt. destruct (Hstop ltac:(lia)) as (H1 & H2 & H3 & H4).
           split_and!; try lia; [exact H2|].
           replace (cur + S r - 1) with (S cur + r - 1) by lia. exact H4.
        -- intros j Hj Ej.
           assert (Hj' : S cur <= j < S cur + r).
           { destruct (decide (j = cur)) as [->|?]; [congruence|lia]. }
           destruct (Hn j Hj' Ej) as (H1 & H2 & H3).
           split_and!; try lia. exact H3.
    + specialize (IH (i + 1)%Z keys cur).
      destruct (plan k (i + 1) keys cur) as [t r]. cbn [fst snd] in *.
      destruct IH as (Hle & Hr & Hstop & Hn).
      rewrite (listed_between_step i (i + Z.of_nat (S t))) by lia.
      rewrite Ep.
      replace (i + Z.of_nat (S t))%Z with (i + 1 + Z.of_nat t)%Z by lia.
      split_and!; try lia.
      * intros Hlt. destruct (Hstop ltac:(lia)) as (H1 & H2 & H3 & H4).
        split_and!; try lia; assumption.
      * intros j Hj Ej. destruct (Hn j Hj Ej) as (H1 & H2 & H3).
        split_and!; try lia. exact H3.
Qed.

Section Counts.
Context {RS : RandomSource} {RL : RandomSourceLaws RS}.
Implicit Types (w : Coin.World RS) (a self : addr) (loc : Coin.Locals).

(** A run, over a pool that is not empty or of no trial at all, against
    its plan. *)
Lemma simulate_loop_counts self (n : Z) w me (l : list Q) :
  Coin.heap w !! self = Some me -> Coin.p me = PList l ->
  l <> [] \/ (n <= 0)%Z ->
  exists loc w',
    Coin.simulate_loop self n w = (Ok loc, w')
    /\ Inv (Coin.heap w') loc
    /\ Coin.coins loc = seq (length (Coin.heap w)) (length l)
    /\ length (Coin.trace loc)
       = fst (plan (Z.to_nat n) 0 (Coin.stdin w) (Coin.cursor w))
    /\ Coin.cursor w'
       = Coin.cursor w + snd (plan (Z.to_nat n) 0 (Coin.stdin w) (Coin.cursor w))
    /\ Coin.stdin w' = Coin.stdin w.
Proof.
  intros E Hp Hcase. destruct (decide (l = [])) as [->|Hne].
  - destruct Hcase as [Hcase|Hn]; [congruence|].
    rewrite (simulate_loop_unfold self n w me [] E Hp).
    replace (Z.to_nat n) with 0 by lia. cbn [Coin.for_range plan fst snd].
    eexists. eexists. split; [reflexivity|].
    cbn [Coin.heap Coin.coins Coin.trace Coin.cursor Coin.stdin length].
    split_and!; auto. apply (Inv_fresh (Coin.heap w) []).
  - destruct (simulate_loop_plan self n w me l E Hp Hne)
      as (loc & w' & Er & HI & Ecs & Elen & Ecur & Ein & _).
    exists loc, w'. split_and!; auto.
Qed.

End Counts.

(** C3. When a run ends, every coin of the pool has [alpha = 1 + k] and
    [beta = 1 + m], where [k] and [m] count the trials of the run that
    tossed this coin with a success and with a failure, and [k + m] is the
    number of trials that tossed it; every trial tossed a coin of the
    pool, and the sum over the pool of [(alpha - 1) + (beta - 1)] is the
    number of trials of the run, each of them counted for exactly one
    coin.  That number is the one the plan of the run tells from [n] and
    the answers: it is [n] (0 for a negative [n]) when no line the run
    reads is the letter n.  A run over a pool that is not empty does
    end. *)
Theorem posteriors_count_trials {RS : RandomSource} {RL : RandomSourceLaws RS}
    (w : Coin.World RS) (self : addr) (me : Coin.t) (l : list Q) (n : Z) :
  Coin.heap w !! self = Some me -> Coin.p me = PList l ->
  l <> [] \/ (n <= 0)%Z ->
  exists (loc : Coin.Locals) (w' : Coin.World RS),
    Coin.simulate_loop self n w = (Ok loc, w')
    /\ length (Coin.coins loc) = length l
    /\ (forall a, a ∈ Coin.coins loc ->
          exists c, Coin.heap w' !! a = Some c
            /\ Coin.alpha c = (1 + tally a true (Coin.trace loc))%Z
            /\ Coin.beta c = (1 + tally a false (Coin.trace loc))%Z
            /\ (tally a true (Coin.trace loc) + tally a false (Coin.trace loc)
                = selected a (Coin.trace loc))%Z)
    /\ (forall a x, (a, x) ∈ Coin.trace loc -> a ∈ Coin.coins loc)
    /\ observations (Coin.heap w') (Coin.coins loc)
       = Z.of_nat (length (Coin.trace loc))
    /\ selections (Coin.coins loc) (Coin.trace loc)
       = Z.of_nat (length (Coin.trace loc))
    /\ length (Coin.trace loc)
       = fst (plan (Z.to_nat n) 0 (Coin.stdin w) (Coin.cursor w))
    /\ length (Coin.trace loc) <= Z.to_nat n
    /\ ((forall j, Coin.cursor w <= j < Coin.cursor w' ->
                   Coin.stdin w j <> "n"%string) ->
        length (Coin.trace loc) = Z.to_nat n
        /\ observations (Coin.heap w') (Coin.coins loc) = Z.max 0 n).
Proof.
  intros E Hp Hcase.
  destruct (simulate_loop_counts self n w me l E Hp Hcase)
    as (loc & w' & Er & HI & Ecs & Elen & Ecur & _).
  destruct (plan_spec (Z.to_nat n) 0 (Coin.stdin w) (Coin.cursor w))
    as (Hle & _ & Hstop & _).
  rewrite <- Elen in Hle, Hstop. rewrite <- Ecur in Hstop.
  assert (Hall : (forall j, Coin.cursor w <= j < Coin.cursor w' ->
                            Coin.stdin w j <> "n"%string) ->
                 length (Coin.trace loc) = Z.to_nat n).
  { intros Hno.
    destruct (Nat.lt_ge_cases (length (Coin.trace loc)) (Z.to_nat n))
      as [Hlt|Hge]; [|lia].
    destruct (Hstop Hlt) as (_ & _ & H1 & Hn).
    exfalso. apply (Hno (Coin.cursor w' - 1)); [lia|exact Hn]. }
  exists loc, w'. split_and!.
  - exact Er.
  - now rewrite Ecs, length_seq.
  - intros a Ha. destruct (Inv_posterior _ _ a HI Ha) as (c & Ec & Hal & Hbe).
    exists c. split_and!; auto. apply tally_selected.
  - apply (inv_trace _ _ HI).
  - now apply Inv_observations.
  - apply selected_total; [apply (inv_nodup _ _ HI)|apply (inv_trace _ _ HI)].
  - exact Elen.
  - exact Hle.
  - intros Hno. split; [now apply Hall|].
    rewrite (Inv_observations _ _ HI), (Hall Hno). lia.
Qed.

Lemma posteriors_count_trials_witness :
  exists (loc : Coin.Locals) (w' : Coin.World Scripted),
    Coin.simulate_loop 0 12 (notebook [1 # 5; 1 # 2; 3 # 4]%Q (fun _ => "y"%string))
    = (Ok loc, w')
    /\ length (Coin.coins loc) = length [1 # 5; 1 # 2; 3 # 4]%Q
    /\ (forall a, a ∈ Coin.coins loc ->
          exists c, Coin.heap w' !! a = Some c
            /\ Coin.alpha c = (1 + tally a true (Coin.trace loc))%Z
            /\ Coin.beta c = (1 + tally a false (Coin.trace loc))%Z
            /\ (tally a true (Coin.trace loc) + tally a false (Coin.trace loc)
                = selected a (Coin.trace loc))%Z)
    /\ (forall a x, (a, x) ∈ Coin.trace loc -> a ∈ Coin.coins loc)
    /\ observations (Coin.heap w') (Coin.coins loc)
       = Z.of_nat (length (Coin.trace loc))
    /\ selections (Coin.coins loc) (Coin.trace loc)
       = Z.of_nat (length (Coin.trace loc))
    /\ length (Coin.trace loc)
       = fst (plan (Z.to_nat 12) 0
                (Coin.stdin (notebook [1 # 5; 1 # 2; 3 # 4]%Q (fun _ => "y"%string)))
                (Coin.cursor (notebook [1 # 5; 1 # 2; 3 # 4]%Q (fun _ => "y"%string))))
    /\ length (Coin.trace loc) <= Z.to_nat 12
    /\ ((forall j,
           Coin.cursor (notebook [1 # 5; 1 # 2; 3 # 4]%Q (fun _ => "y"%string)) <= j
           < Coin.cursor w' ->
           Coin.stdin (notebook [1 # 5; 1 # 2; 3 # 4]%Q (fun _ => "y"%string)) j
           <> "n"%string) ->
        length (Coin.trace loc) = Z.to_nat 12
        /\ observations (Coin.heap w') (Coin.coins loc) = Z.max 0 12).
Proof.
  apply (@posteriors_count_trials Scripted Scripted_laws _ 0
           (Coin.mk (PList [1 # 5; 1 # 2; 3 # 4]%Q) 1 1)).
  - reflexivity.
  - reflexivity.
  - left. discriminate.
Defined.

(** The run of the witness in full: twelve trials, all on the first coin
    at a tie, all failures, so that this coin ends with [alpha = 1] and
    [beta = 13] and the others as created. *)
Example twelve_trials_counted :
  exists (loc : Coin.Locals) (w' : Coin.World Scripted),
    Coin.simulate_loop 0 12 (notebook [1 # 5; 1 # 2; 3 # 4]%Q (fun _ => "y"%string))
    = (Ok loc, w')
    /\ length (Coin.trace loc) = 12
    /\ observations (Coin.heap w') (Coin.coins loc) = 12%Z
    /\ arms (Coin.heap w') (Coin.coins loc)
       = [Coin.mk (PNum (1 # 5)) 1 13; Coin.mk (PNum (1 # 2)) 1 1;
          Coin.mk (PNum (3 # 4)) 1 1].
Proof.
  eexists. eexists. split; [vm_compute; reflexivity|].
  split_and!; reflexivity.
Qed.

(** C5, as the code has it.  Over a pool that is not empty, or for
    [n <= 0], [simulate] prints its last line only after its loop has
    ended, and its loop does the trials its plan tells: at most [n], none
    when [n <= 0].  It prompts once after each trial it has done whose
    index is one of 5, 10, 20, 50, 100, 200, 500, 1000, 2000, 5000, 9999,
    and nowhere else.  It does fewer than [n] trials only when its last
    trial is one of those and the line read at its prompt is the letter
    n; that letter, among the lines read, is always the last one, read
    after the last trial done; and when no line read is that letter, the
    loop does exactly [n] trials. *)
Theorem simulate_trial_count {RS : RandomSource} {RL : RandomSourceLaws RS}
    (w : Coin.World RS) (self : addr) (me : Coin.t) (l : list Q) (n : Z) :
  Coin.heap w !! self = Some me -> Coin.p me = PList l ->
  l <> [] \/ (n <= 0)%Z ->
  exists (loc : Coin.Locals) (w' : Coin.World RS),
    Coin.simulate_loop self n w = (Ok loc, w')
    /\ Coin.simulate self n w
       = (Ok tt, Coin.mkWorld (Coin.heap w') (Coin.rng w') (Coin.stdin w')
                   (Coin.cursor w')
                   (Coin.stdout w' ++ [PrintLine "Simulation completed!"]))
    /\ length (Coin.trace loc)
       = fst (plan (Z.to_nat n) 0 (Coin.stdin w) (Coin.cursor w))
    /\ Coin.cursor w'
       = Coin.cursor w + snd (plan (Z.to_nat n) 0 (Coin.stdin w) (Coin.cursor w))
    /\ length (Coin.trace loc) <= Z.to_nat n
    /\ Coin.cursor w'
       = Coin.cursor w + listed_between 0 (Z.of_nat (length (Coin.trace loc)))
    /\ (length (Coin.trace loc) < Z.to_nat n ->
        1 <= length (Coin.trace loc)
        /\ is_plot_trial (Z.of_nat (length (Coin.trace loc)) - 1) = true
        /\ Coin.cursor w < Coin.cursor w'
        /\ Coin.stdin w (Coin.cursor w' - 1) = "n"%string)
    /\ (forall j, Coin.cursor w <= j < Coin.cursor w' ->
          Coin.stdin w j = "n"%string ->
          j = Coin.cursor w' - 1
          /\ 1 <= length (Coin.trace loc)
          /\ is_plot_trial (Z.of_nat (length (Coin.trace loc)) - 1) = true)
    /\ ((forall j, Coin.cursor w <= j < Coin.cursor w' ->
                   Coin.stdin w j <> "n"%string) ->
        length (Coin.trace loc) = Z.to_nat n).
Proof.
  intros E Hp Hcase.
  destruct (simulate_loop_counts self n w me l E Hp Hcase)
    as (loc & w' & Er & _ & _ & Elen & Ecur & _).
  destruct (plan_spec (Z.to_nat n) 0 (Coin.stdin w) (Coin.cursor w))
    as (Hle & Hr & Hstop & Hn).
  rewrite <- Elen in Hle, Hr, Hstop, Hn.
  assert (Hstop' : length (Coin.trace loc) < Z.to_nat n ->
            1 <= length (Coin.trace loc)
            /\ is_plot_trial (Z.of_nat (length (Coin.trace loc)) - 1) = true
            /\ Coin.cursor w < Coin.cursor w'
            /\ Coin.stdin w (Coin.cursor w' - 1) = "n"%string).
  { intros Hlt. destruct (Hstop Hlt) as (H1 & H2 & H3 & H4).
    rewrite Z.add_0_l in H2. rewrite Ecur. split_and!; auto; lia. }
  exists loc, w'. split_and!.
  - exact Er.
  - exact (simulate_of_loop self n w loc w' Er).
  - exact Elen.
  - exact Ecur.
  - exact Hle.
  - rewrite Ecur, Hr. now rewrite Z.add_0_l.
  - exact Hstop'.
  - intros j Hj Ej. rewrite Ecur in Hj |- *.
    destruct (Hn j Hj Ej) as (H1 & H2 & H3).
    rewrite Z.add_0_l in H3. auto.
  - intros Hno.
    destruct (Nat.lt_ge_cases (length (Coin.trace loc)) (Z.to_nat n))
      as [Hlt|Hge]; [|lia].
    destruct (Hstop' Hlt) as (_ & _ & H1 & H2).
    exfalso. apply (Hno (Coin.cursor w' - 1)); [lia|exact H2].
Qed.

Lemma simulate_trial_count_witness :
  exists (loc : Coin.Locals) (w' : Coin.World Scripted),
    Coin.simulate_loop 0 12 (notebook [1 # 5; 1 # 2; 3 # 4]%Q (fun _ => "y"%string))
    = (Ok loc, w')
    /\ Coin.simulate 0 12 (notebook [1 # 5; 1 # 2; 3 # 4]%Q (fun _ => "y"%string))
       = (Ok tt, Coin.mkWorld (Coin.heap w') (Coin.rng w') (Coin.stdin w')
                   (Coin.cursor w')
                   (Coin.stdout w' ++ [PrintLine "Simulation completed!"]))
    /\ length (Coin.trace loc)
       = fst (plan (Z.to_nat 12) 0
                (Coin.stdin (notebook [1 # 5; 1 # 2; 3 # 4]%Q (fun _ => "y"%string)))
                (Coin.cursor (notebook [1 # 5; 1 # 2; 3 # 4]%Q (fun _ => "y"%string))))
    /\ Coin.cursor w'
       = Coin.cursor (notebook [1 # 5; 1 # 2; 3 # 4]%Q (fun _ => "y"%string))
         + snd (plan (Z.to_nat 12) 0
                  (Coin.stdin (notebook [1 # 5; 1 # 2; 3 # 4]%Q (fun _ => "y"%string)))
                  (Coin.cursor (notebook [1 # 5; 1 # 2; 3 # 4]%Q (fun _ => "y"%string))))
    /\ length (Coin.trace loc) <= Z.to_nat 12
    /\ Coin.cursor w'
       = Coin.cursor (notebook [1 # 5; 1 # 2; 3 # 4]%Q (fun _ => "y"%string))
         + listed_between 0 (Z.of_nat (length (Coin.trace loc)))
    /\ (length (Coin.trace loc) < Z.to_nat 12 ->
        1 <= length (Coin.trace loc)
        /\ is_plot_trial (Z.of_nat (length (Coin.trace loc)) - 1) = true
        /\ Coin.cursor (notebook [1 # 5; 1 # 2; 3 # 4]%Q (fun _ => "y"%string))
           < Coin.cursor w'
        /\ Coin.stdin (notebook [1 # 5; 1 # 2; 3 # 4]%Q (fun _ => "y"%string))
             (Coin.cursor w' - 1) = "n"%string)
    /\ (forall j,
          Coin.cursor (notebook [1 # 5; 1 # 2; 3 # 4]%Q (fun _ => "y"%string)) <= j
          < Coin.cursor w' ->
          Coin.stdin (notebook [1 # 5; 1 # 2; 3 # 4]%Q (fun _ => "y"%string)) j
          = "n"%string ->
          j = Coin.cursor w' - 1
          /\ 1 <= length (Coin.trace loc)
          /\ is_plot_trial (Z.of_nat (length (Coin.trace loc)) - 1) = true)
    /\ ((forall j,
           Coin.cursor (notebook [1 # 5; 1 # 2; 3 # 4]%Q (fun _ => "y"%string)) <= j
           < Coin.cursor w' ->
           Coin.stdin (notebook [1 # 5; 1 # 2; 3 # 4]%Q (fun _ => "y"%string)) j
           <> "n"%string) ->
        length (Coin.trace loc) = Z.to_nat 12).
Proof.
  apply (@simulate_trial_count Scripted Scripted_laws _ 0
           (Coin.mk (PList [1 # 5; 1 # 2; 3 # 4]%Q) 1 1)
           [1 # 5; 1 # 2; 3 # 4]%Q).
  - reflexivity.
  - reflexivity.
  - left. discriminate.
Defined.

(** Three trials are too few to reach a prompt: a user who would answer
    with the letter n is never asked, and all three trials are done. *)
Example unread_answer_stops_nothing :
  exists (loc : Coin.Locals) (w' : Coin.World Scripted),
    Coin.simulate_loop 0 3 (notebook [1 # 5; 1 # 2; 3 # 4]%Q (fun _ => "n"%string))
    = (Ok loc, w')
    /\ length (Coin.trace loc) = 3 /\ Coin.cursor w' = 0 /\ Coin.stdout w' = [].
Proof.
  eexists. eexists. split; [vm_compute; reflexivity|].
  split_and!; reflexivity.
Qed.
